(** * OSC-Agent: the workflow orchestration core

    A shallow embedding of the orchestrator of the OSC-Agent repository:

    - [src/orchestrator/states.ts]        states and the persisted run record,
    - [src/orchestrator/guards.ts]        entry guards (both shipped definitions),
    - [src/orchestrator/state-machine.ts] [StateMachine.transition] and
      [initialize],
    - [src/orchestrator/events.ts]        the [stateChange] emitter,
    - [src/orchestrator/state-store.ts]   the file-backed [StateStore],
    - [src/orchestrator/recovery.ts]      [RecoveryManager],
    - [src/orchestrator/data-flow.ts]     [SUCCESS_TRIGGERS] and the context
      bridge,
    - [src/orchestrator/agent-coordinator.ts] and
      [src/orchestrator/workflow.ts]      [execute], [executeState],
      [attemptRecovery] and the execution loop.

    JavaScript objects used as dictionaries are finite maps, [number]s that
    count are integers, exceptions are the left summand of a result, and the
    mutable fields of the classes are threaded explicitly through a small
    state-and-exception monad in which a throw keeps every mutation made
    before it. *)

From Stdlib Require Import ZArith Ascii String List Bool Lia.
From stdpp Require Import base option list gmap strings.

Import ListNotations.
Local Open Scope string_scope.
Local Open Scope Z_scope.

(** ** States and triggers ([states.ts], [transitions.ts]) *)

Inductive State : Type :=
  | IDLE | ANALYZING | SEARCHING | PLANNING | GENERATING | APPLYING
  | BUILDING | TESTING | REVIEWING | SUBMITTING | DONE
  | PAUSED | ERROR | CANCELLED.

Inductive Trigger : Type :=
  | START | ANALYSIS_OK | SEARCH_OK | PLAN_OK | GENERATION_OK | APPLY_OK
  | BUILD_OK | TEST_OK | REVIEW_OK | SUBMIT_OK
  | PAUSE | RESUME | CANCEL | FAIL | RETRY.

(** [a === b] on states and on triggers: [State_beq], [Trigger_beq]. *)
Scheme Equality for State.
Scheme Equality for Trigger.

#[global] Instance State_EqDecision : EqDecision State := State_eq_dec.
#[global] Instance Trigger_EqDecision : EqDecision Trigger := Trigger_eq_dec.

(** [type ControlState = 'PAUSED' | 'ERROR' | 'CANCELLED'];
    every other state is a [CoreState]. *)
Definition isControl (s : State) : bool :=
  match s with
  | PAUSED | ERROR | CANCELLED => true
  | _ => false
  end.

Definition isCore (s : State) : bool := negb (isControl s).

Definition stateName (s : State) : string :=
  match s with
  | IDLE => "IDLE" | ANALYZING => "ANALYZING" | SEARCHING => "SEARCHING"
  | PLANNING => "PLANNING" | GENERATING => "GENERATING"
  | APPLYING => "APPLYING" | BUILDING => "BUILDING" | TESTING => "TESTING"
  | REVIEWING => "REVIEWING" | SUBMITTING => "SUBMITTING" | DONE => "DONE"
  | PAUSED => "PAUSED" | ERROR => "ERROR" | CANCELLED => "CANCELLED"
  end.

Definition triggerName (t : Trigger) : string :=
  match t with
  | START => "START" | ANALYSIS_OK => "ANALYSIS_OK" | SEARCH_OK => "SEARCH_OK"
  | PLAN_OK => "PLAN_OK" | GENERATION_OK => "GENERATION_OK"
  | APPLY_OK => "APPLY_OK" | BUILD_OK => "BUILD_OK" | TEST_OK => "TEST_OK"
  | REVIEW_OK => "REVIEW_OK" | SUBMIT_OK => "SUBMIT_OK" | PAUSE => "PAUSE"
  | RESUME => "RESUME" | CANCEL => "CANCEL" | FAIL => "FAIL" | RETRY => "RETRY"
  end.

(** ** Context values

    [Record<string, unknown>]: the values a context can hold are modelled as
    JSON-like trees plus [undefined].  Numbers are integers (no NaN, no
    fractions); functions, dates and cyclic objects are left out. *)

#[local] Set Warnings "-register-all".

Inductive JValue : Type :=
  | JUndefined
  | JNull
  | JBool (b : bool)
  | JNumber (n : Z)
  | JString (s : string)
  | JArray (items : list JValue)
  | JObject (fields : list (string * JValue)).

Abbreviation Context := (gmap string JValue).

(** [ctx.key]: a missing property reads as [undefined]. *)
Definition prop (ctx : Context) (key : string) : JValue :=
  default JUndefined (ctx !! key).

(** [!!v] *)
Definition truthy (v : JValue) : bool :=
  match v with
  | JUndefined | JNull => false
  | JBool b => b
  | JNumber n => negb (n =? 0)
  | JString s => negb (String.eqb s "")
  | JArray _ | JObject _ => true
  end.

(** [Array.isArray(v) && v.length > 0] *)
Definition isNonEmptyArray (v : JValue) : bool :=
  match v with
  | JArray (_ :: _) => true
  | _ => false
  end.

(** [{ ...a, ...b }]: shallow merge, the right operand wins. *)
Definition spread (a b : Context) : Context := b ∪ a.

(** [{ ...a, ...payload?.context }]: spreading [undefined] adds nothing. *)
Definition spreadOpt (a : Context) (b : option Context) : Context :=
  match b with
  | Some c => spread a c
  | None => a
  end.

(** ** Guards ([guards.ts])

    The repository holds two definitions of the guard table.  Both guard
    [PLANNING] the same way; they differ on [SEARCHING].  The one in force
    is the analysis check, [transitionGuards_analysis]: the handlers
    produce [analysis], nothing produces [query] or [analysisResults], and
    the command-line entry point runs the pipeline to [DONE] over the real
    guards. *)

Definition GuardFn : Type := Context -> bool.
Definition GuardTable : Type := State -> option GuardFn.

(** The table of [src/orchestrator/guards.ts], lines 6-10:
    [SEARCHING: (ctx) => !!ctx.query || !!ctx.analysisResults]. *)
Definition transitionGuards : GuardTable := fun s =>
  match s with
  | SEARCHING =>
      Some (fun ctx => truthy (prop ctx "query") || truthy (prop ctx "analysisResults"))
  | PLANNING => Some (fun ctx => isNonEmptyArray (prop ctx "searchResults"))
  | _ => None
  end.

(** The table of the second guards module (unnamed part 15), lines 6-9:
    [SEARCHING: (ctx) => !!ctx.analysis]. *)
Definition transitionGuards_analysis : GuardTable := fun s =>
  match s with
  | SEARCHING => Some (fun ctx => truthy (prop ctx "analysis"))
  | PLANNING => Some (fun ctx => isNonEmptyArray (prop ctx "searchResults"))
  | _ => None
  end.

(** The table the unit and integration tests install with [jest.mock]:
    [transitionGuards: {}]. *)
Definition noGuards : GuardTable := fun _ => None.

(** ** The transition map ([transitions.ts]) *)

(** Modelled from the spec: [src/orchestrator/transitions.ts] (the constant
    [transitions] and the type [Trigger]) is not among the sources.  The
    spec gives the forward path
    [IDLE -START-> ANALYZING -ANALYSIS_OK-> SEARCHING -SEARCH_OK-> PLANNING
     -PLAN_OK-> GENERATING -GENERATION_OK-> APPLYING -APPLY_OK-> BUILDING
     -BUILD_OK-> TESTING -TEST_OK-> REVIEWING -REVIEW_OK-> SUBMITTING
     -SUBMIT_OK-> DONE]
    and, from [ERROR], [RETRY] to the canonical retry target [GENERATING]
    (the orchestrator's retry tests need this entry, see
    [retry_without_entry_reruns_the_failed_state]).  [PAUSE], [CANCEL],
    [FAIL] and [RESUME] are resolved by [StateMachine.transition] itself and
    need no entry. *)
Definition transitions (s : State) (t : Trigger) : option State :=
  match s, t with
  | IDLE, START => Some ANALYZING
  | ANALYZING, ANALYSIS_OK => Some SEARCHING
  | SEARCHING, SEARCH_OK => Some PLANNING
  | PLANNING, PLAN_OK => Some GENERATING
  | GENERATING, GENERATION_OK => Some APPLYING
  | APPLYING, APPLY_OK => Some BUILDING
  | BUILDING, BUILD_OK => Some TESTING
  | TESTING, TEST_OK => Some REVIEWING
  | REVIEWING, REVIEW_OK => Some SUBMITTING
  | SUBMITTING, SUBMIT_OK => Some DONE
  | ERROR, RETRY => Some GENERATING
  | _, _ => None
  end.

(** ** The persisted run record ([states.ts]) *)

Record ErrorPayload : Type := mkErrorPayload {
  e_code : string;
  e_message : string;
  e_details : option string;
}.

Record PersistedState : Type := mkPersisted {
  p_runId : string;
  currentState : State;
  updatedAt : string;
  p_attempt : Z;
  p_context : Context;
  p_error : option ErrorPayload;
  p_history : list State;
}.

Record StateChangeEvent : Type := mkEvent {
  ev_from : State;
  ev_to : State;
  ev_trigger : Trigger;
  ev_runId : string;
  ev_timestamp : string;
}.

(** ** State and exceptions

    [Eff S E A]: a computation over mutable state [S] that either returns an
    [A] or throws an [E].  As in JavaScript, a throw does not undo the
    mutations made before it: the state reached so far is returned next to
    the exception. *)

Definition Eff (S E A : Type) : Type := S -> (E + A) * S.

#[global] Instance Eff_ret {S E} : MRet (Eff S E) :=
  fun A (a : A) s => (inr a, s).

#[global] Instance Eff_bind {S E} : MBind (Eff S E) :=
  fun A B (k : A -> Eff S E B) (c : Eff S E A) s =>
    match c s with
    | (inr a, s') => k a s'
    | (inl e, s') => (inl e, s')
    end.

Definition throw {S E A} (e : E) : Eff S E A := fun s => (inl e, s).
Definition get {S E} : Eff S E S := fun s => (inr s, s).
Definition modify {S E} (f : S -> S) : Eff S E unit := fun s => (inr tt, f s).

(** [try { c } catch (e) { h e }] *)
Definition tryCatch {S E A} (c : Eff S E A) (h : E -> Eff S E A) : Eff S E A :=
  fun s =>
    match c s with
    | (inr a, s') => (inr a, s')
    | (inl e, s') => h e s'
    end.

(** ** The file system under the store

    A disk holds directories and files.  A file that a writer has opened
    (and so truncated) but not finished holds a proper prefix of the
    document being written: [Partial].  [JSON.parse] rejects such a prefix,
    since the closing brace of the top-level object is its last token. *)

Inductive FileContent : Type :=
  | Complete (doc : PersistedState)
  | Partial (doc : PersistedState).

Record Disk : Type := mkDisk {
  files : gmap string FileContent;
  dirs : gset string;
}.

Definition emptyDisk : Disk := mkDisk ∅ ∅.

Definition FS : Type -> Type := Eff Disk string.

(** [fs.mkdir(dir, { recursive: true })]: succeeds when the directory is
    already there, fails when the name is taken by a file.  The directories
    above [dir] are not looked at: a disk on which one of them is a regular
    file, where [mkdir] rejects too, is outside this model; the properties
    below say what a [save] that returns has done, not on which disks it
    returns. *)
Definition fs_mkdir (dir : string) : FS unit := fun d =>
  match files d !! dir with
  | Some _ => (inl ("EEXIST: file already exists, mkdir " ++ dir)%string, d)
  | None => (inr tt, mkDisk (files d) ({[dir]} ∪ dirs d))
  end.

(** Opening a file for writing (flag [w]) truncates it; it fails on a
    directory. *)
Definition fs_open_w (path : string) (doc : PersistedState) : FS unit := fun d =>
  if decide (path ∈ dirs d)
  then (inl ("EISDIR: illegal operation on a directory, open " ++ path)%string, d)
  else (inr tt, mkDisk (<[path := Partial doc]> (files d)) (dirs d)).

(** The last byte of the document has reached the file. *)
Definition fs_finish (path : string) (doc : PersistedState) : FS unit := fun d =>
  (inr tt, mkDisk (<[path := Complete doc]> (files d)) (dirs d)).

(** [fs.rename(src, dst)]: the name [dst] switches to the content of [src]
    in one step. *)
Definition fs_rename (src dst : string) : FS unit := fun d =>
  match files d !! src with
  | None => (inl ("ENOENT: no such file or directory, rename " ++ src)%string, d)
  | Some c =>
      if decide (dst ∈ dirs d)
      then (inl ("EISDIR: illegal operation on a directory, rename " ++ dst)%string, d)
      else (inr tt, mkDisk (<[dst := c]> (delete src (files d))) (dirs d))
  end.

(** [fs.readFile(path, 'utf-8')] *)
Definition fs_readFile (path : string) : FS FileContent := fun d =>
  match files d !! path with
  | Some c => (inr c, d)
  | None => (inl ("ENOENT: no such file or directory, open " ++ path)%string, d)
  end.

(** The calls a store method issues, and the steps in which the file system
    carries them out.  A write is two steps: open (truncate), then the
    bytes. *)
Inductive FsCall : Type :=
  | Mkdir (dir : string)
  | WriteFile (path : string) (doc : PersistedState)
  | Rename (src dst : string).

Inductive FsStep : Type :=
  | StepMkdir (dir : string)
  | StepOpen (path : string) (doc : PersistedState)
  | StepFinish (path : string) (doc : PersistedState)
  | StepRename (src dst : string).

Definition steps_of (c : FsCall) : list FsStep :=
  match c with
  | Mkdir dir => [StepMkdir dir]
  | WriteFile path doc => [StepOpen path doc; StepFinish path doc]
  | Rename src dst => [StepRename src dst]
  end.

Definition run_step (s : FsStep) : FS unit :=
  match s with
  | StepMkdir dir => fs_mkdir dir
  | StepOpen path doc => fs_open_w path doc
  | StepFinish path doc => fs_finish path doc
  | StepRename src dst => fs_rename src dst
  end.

Fixpoint run_steps (ss : list FsStep) : FS unit :=
  match ss with
  | [] => mret tt
  | s :: rest => run_step s;; run_steps rest
  end.

(** Running a list of calls to completion, one after the other ([await]). *)
Definition run_calls (cs : list FsCall) : FS unit :=
  run_steps (concat (map steps_of cs)).

(** The disks a crash, or a reader running between two steps, can find
    while the calls are under way: the disk after each proper, non-empty
    prefix of the steps. *)
Fixpoint midway_steps (ss : list FsStep) (d : Disk) : list Disk :=
  match ss with
  | [] | [_] => []
  | s :: rest =>
      match run_step s d with
      | (inr _, d') => d' :: midway_steps rest d'
      | (inl _, _) => []
      end
  end.

Definition midway (cs : list FsCall) (d : Disk) : list Disk :=
  midway_steps (concat (map steps_of cs)) d.

(** ** JSON documents

    What [JSON.stringify] keeps of a value: a property whose value is
    [undefined] is omitted, an [undefined] array element becomes [null]. *)

Definition isUndefined (v : JValue) : bool :=
  match v with
  | JUndefined => true
  | _ => false
  end.

Fixpoint jsonValue (v : JValue) : JValue :=
  match v with
  | JArray items =>
      JArray (map (fun x => if isUndefined x then JNull else jsonValue x) items)
  | JObject fields =>
      JObject
        ((fix props (fs : list (string * JValue)) : list (string * JValue) :=
            match fs with
            | [] => []
            | (k, x) :: rest =>
                if isUndefined x then props rest else (k, jsonValue x) :: props rest
            end) fields)
  | _ => v
  end.

Definition jsonContext (ctx : Context) : Context :=
  jsonValue <$> filter (fun kv => isUndefined kv.2 = false) ctx.

(** [JSON.stringify(state, null, 2)]: the document that reaches the file. *)
Definition JSON_stringify (r : PersistedState) : PersistedState :=
  mkPersisted (p_runId r) (currentState r) (updatedAt r) (p_attempt r)
              (jsonContext (p_context r)) (p_error r) (p_history r).

(** [JSON.parse(data)]: throws on a truncated document. *)
Definition JSON_parse (data : FileContent) : option PersistedState :=
  match data with
  | Complete doc => Some doc
  | Partial _ => None
  end.

(** ** The state store ([state-store.ts]) *)

Record StateStore : Type := mkStore { storagePath : string }.

(** [path.dirname]: the text before the last separator, for a path without
    trailing or doubled separators. *)
Fixpoint beforeLastSlash (p : string) : option string :=
  match p with
  | EmptyString => None
  | String c rest =>
      match beforeLastSlash rest with
      | Some d => Some (String c d)
      | None => if Ascii.eqb c "/" then Some EmptyString else None
      end
  end.

Definition dirname (p : string) : string :=
  match beforeLastSlash p with
  | Some EmptyString => "/"
  | Some d => d
  | None => "."
  end.

(** [save]: the calls it awaits, in order.
    [[
      const dir = path.dirname(this.storagePath);
      await fs.mkdir(dir, { recursive: true });
      await fs.writeFile(this.storagePath, JSON.stringify(state, null, 2), 'utf-8');
    ]] *)
Definition save_calls (st : StateStore) (state : PersistedState) : list FsCall :=
  let dir := dirname (storagePath st) in
  [Mkdir dir; WriteFile (storagePath st) (JSON_stringify state)].

Definition save (st : StateStore) (state : PersistedState) : FS unit :=
  run_calls (save_calls st state).

#[global] Arguments save : simpl never.

(** [load]: any failure of the read or of the parse yields [null]. *)
Definition load (st : StateStore) : FS (option PersistedState) :=
  tryCatch (data ← fs_readFile (storagePath st); mret (JSON_parse data))
           (fun _ => mret None).

(** [exists] *)
Definition exists_ (st : StateStore) : FS bool := fun d =>
  (inr (bool_decide (is_Some (files d !! storagePath st)
                     ∨ storagePath st ∈ dirs d)), d).

(** What [load] returns on a given disk. *)
Definition loaded (st : StateStore) (d : Disk) : option PersistedState :=
  match load st d with
  | (inr r, _) => r
  | (inl _, _) => None
  end.

(** Modelled from the spec: a [save] that is atomic with respect to readers,
    in the spec's words "temp-file + rename".  The source has no such
    function; it is the yardstick [save_calls] is compared with. *)
Definition save_calls_atomic (st : StateStore) (state : PersistedState) : list FsCall :=
  let dir := dirname (storagePath st) in
  let tmp := (storagePath st ++ ".tmp")%string in
  [Mkdir dir; WriteFile tmp (JSON_stringify state); Rename tmp (storagePath st)].

(** ** The state machine ([state-machine.ts]) *)

Record Machine : Type := mkMachine {
  store : StateStore;
  runId : string;
  state : State;
  history : list State;
  attempt : Z;
  context : Context;
}.

(** [new StateMachine(store, runId)] *)
Definition newMachine (st : StateStore) (id : string) : Machine :=
  mkMachine st id IDLE [] 1 ∅.

(** The optional second argument of [transition]. *)
Record Payload : Type := mkPayload {
  pl_context : option Context;
  pl_error : option ErrorPayload;
}.

(** [payload?.context], [payload?.error] *)
Definition payloadContext (p : option Payload) : option Context := p ≫= pl_context.
Definition payloadError (p : option Payload) : option ErrorPayload := p ≫= pl_error.

(** The errors [transition] rejects with. *)
Inductive Thrown : Type :=
  | InvalidTransition (trigger : Trigger) (from : State)
  | GuardRejected (to : State)
  | StorageError (reason : string).

(** An event as it reaches a subscriber.  Subscribers run synchronously
    inside [emit]; [seen] is the disk they find if they look. *)
Record Delivery : Type := mkDelivery {
  event : StateChangeEvent;
  seen : Disk;
}.

(** Everything a call of [transition] can read or change. *)
Record Sys : Type := mkSys {
  machine : Machine;
  disk : Disk;
  delivered : list Delivery;
}.

Definition M : Type -> Type := Eff Sys Thrown.

Definition onMachine (f : Machine -> Machine) : M unit :=
  modify (fun s => mkSys (f (machine s)) (disk s) (delivered s)).

Definition this : M Machine := fun s => (inr (machine s), s).

Definition setState (x : State) (m : Machine) : Machine :=
  mkMachine (store m) (runId m) x (history m) (attempt m) (context m).
Definition setHistory (x : list State) (m : Machine) : Machine :=
  mkMachine (store m) (runId m) (state m) x (attempt m) (context m).
Definition setAttempt (x : Z) (m : Machine) : Machine :=
  mkMachine (store m) (runId m) (state m) (history m) x (context m).
Definition setContext (x : Context) (m : Machine) : Machine :=
  mkMachine (store m) (runId m) (state m) (history m) (attempt m) x.

(** [this.history.pop()]: removes and returns the last element. *)
Definition historyPop : M (option State) :=
  m ← this;
  onMachine (setHistory (removelast (history m)));;
  mret (last (history m)).

(** [this.history.push(s)] *)
Definition historyPush (s : State) : M unit :=
  m ← this; onMachine (setHistory (history m ++ [s])%list).

(** [await this.store.save(persisted)] *)
Definition storeSave (r : PersistedState) : M unit := fun s =>
  match save (store (machine s)) r (disk s) with
  | (inr _, d) => (inr tt, mkSys (machine s) d (delivered s))
  | (inl reason, d) => (inl (StorageError reason), mkSys (machine s) d (delivered s))
  end.

(** [await this.store.load()] *)
Definition storeLoad : M (option PersistedState) := fun s =>
  (inr (loaded (store (machine s)) (disk s)), s).

(** [this.events.emitTransition(e)], that is [this.emit('stateChange', e)]
    ([events.ts]). *)
Definition emitTransition (e : StateChangeEvent) : M unit :=
  modify (fun s => mkSys (machine s) (disk s)
                         (delivered s ++ [mkDelivery e (disk s)])).

Section StateMachine.

(** The imported tables: [transitions] of [./transitions] and
    [transitionGuards] of [./guards]. *)
Variable table : State -> Trigger -> option State.
Variable guards : GuardTable.

(** [initialize] *)
Definition initialize : M unit :=
  l ← storeLoad;
  m ← this;
  match l with
  | Some r =>
      if String.eqb (p_runId r) (runId m)
      then onMachine (fun m =>
             mkMachine (store m) (runId m) (currentState r) (p_history r)
                       (p_attempt r) (p_context r))
      else mret tt
  | None => mret tt
  end.

(** [transition(trigger, payload?)].  [now] is what
    [new Date().toISOString()] returns during the call.  The numbered
    steps are those of the source. *)
Definition transition (trigger : Trigger) (payload : option Payload)
    (now : string) : M unit :=
  m0 ← this;
  let fromState := state m0 in
  (* 1a. Handle Resume *)
  nextState ←
    (if Trigger_beq trigger RESUME
     then popped ← historyPop; mret (Some (default IDLE popped))
     else mret None);
  (* 1b. Handle Retry *)
  nextState ←
    (if Trigger_beq trigger RETRY
     then
       onMachine (fun m => setAttempt (attempt m + 1) m);;
       m ← this;
       match table (state m) trigger with
       | Some mapped => mret (Some mapped)
       | None => popped ← historyPop; mret (Some (default IDLE popped))
       end
     else mret nextState);
  (* 2. Handle Global Overrides *)
  m ← this;
  let nextState :=
    match nextState with
    | Some _ => nextState
    | None =>
        if negb (State_beq (state m) DONE) && negb (State_beq (state m) CANCELLED)
        then match trigger with
             | PAUSE => Some PAUSED
             | CANCEL => Some CANCELLED
             | FAIL => Some ERROR
             | _ => None
             end
        else None
    end in
  (* 3. Standard Transition Lookup *)
  let nextState :=
    match nextState with
    | Some _ => nextState
    | None => table (state m) trigger
    end in
  (* 4. Validation *)
  nextState ←
    match nextState with
    | Some s => mret s
    | None => throw (InvalidTransition trigger (state m))
    end;
  (* 5. Guards *)
  match guards nextState with
  | Some guard =>
      if guard (spreadOpt (context m) (payloadContext payload))
      then mret tt
      else throw (GuardRejected nextState)
  | None => mret tt
  end;;
  (* 6. Update History *)
  (if negb (isControl (state m))
      && negb (Trigger_beq trigger RESUME) && negb (Trigger_beq trigger RETRY)
   then historyPush (state m)
   else mret tt);;
  (* 7. Commit State *)
  onMachine (setState nextState);;
  match payloadContext payload with
  | Some c => onMachine (fun m => setContext (spread (context m) c) m)
  | None => mret tt
  end;;
  (* 8. Persistence *)
  m ← this;
  let persisted :=
    mkPersisted (runId m) (state m) now (attempt m) (context m)
                (payloadError payload) (history m) in
  storeSave persisted;;
  (* 9. Events *)
  m ← this;
  emitTransition (mkEvent fromState (state m) trigger (runId m) (updatedAt persisted)).

End StateMachine.

(** ** The recovery manager ([recovery.ts]) *)

(** [haystack.includes(needle)] *)
Fixpoint includes (haystack needle : string) : bool :=
  String.prefix needle haystack
  || match haystack with
     | EmptyString => false
     | String _ rest => includes rest needle
     end.

(** [toLowerCase] on the ASCII letters; other characters are kept. *)
Definition lowerChar (c : ascii) : ascii :=
  let n := nat_of_ascii c in
  if (Nat.leb 65 n && Nat.leb n 90)%bool then ascii_of_nat (n + 32) else c.

Fixpoint toLowerCase (s : string) : string :=
  match s with
  | EmptyString => EmptyString
  | String c rest => String (lowerChar c) (toLowerCase rest)
  end.

Inductive ErrorSeverity : Type := transient | retryable | fatal.

Scheme Equality for ErrorSeverity.

Record ErrorClassification : Type := mkClassification {
  severity : ErrorSeverity;
  code : string;
  message : string;
  details : option string;
  retryTarget : option State;
}.

(** A thrown value ([error: unknown]): an [Error] with its message and
    stack, or anything else, given by what [String(error)] makes of it. *)
Inductive Exn : Type :=
  | ErrorObject (msg : string) (stack : option string)
  | NotAnError (asString : string).

Record RecoveryManager : Type := mkRecovery { maxAttempts : Z }.

(** [constructor(private maxAttempts: number = 3)] *)
Definition defaultRecovery : RecoveryManager := mkRecovery 3.

Definition FIX_CYCLE_STATES : list State :=
  [GENERATING; APPLYING; BUILDING; TESTING; REVIEWING].

Definition transientPatterns : list string :=
  ["rate limit"; "timeout"; "ECONNREFUSED"; "ECONNRESET"; "ETIMEDOUT";
   "socket hang up"; "network error"; "status 429"; "status 503"; "status 502"].

Definition fatalPatterns : list string :=
  ["Authentication failed"; "API key is required"; "token is required";
   "Invalid configuration"; "No handler registered"].

(** [[
      const lower = message.toLowerCase();
      return patterns.some((p) => lower.includes(p.toLowerCase()));
    ]] *)
Definition isTransient (msg : string) : bool :=
  let lower := toLowerCase msg in
  existsb (fun p => includes lower (toLowerCase p)) transientPatterns.

(** [return patterns.some((p) => message.includes(p));] *)
Definition isFatal (msg : string) : bool :=
  existsb (fun p => includes msg p) fatalPatterns.

Definition classify (error : Exn) (currentState : State) : ErrorClassification :=
  let msg := match error with ErrorObject m _ => m | NotAnError s => s end in
  let det := match error with ErrorObject _ st => st | NotAnError _ => None end in
  if isFatal msg then mkClassification fatal "FATAL_ERROR" msg det None
  else if existsb (State_beq currentState) FIX_CYCLE_STATES
  then mkClassification retryable "RETRYABLE_ERROR" msg det (Some GENERATING)
  else if isTransient msg then mkClassification transient "TRANSIENT_ERROR" msg det None
  else mkClassification fatal "UNRECOVERABLE_ERROR" msg det None.

(** [[
      if (classification.severity === 'fatal') return false;
      if (!classification.retryTarget) return false;
      return attempt < this.maxAttempts;
    ]] *)
Definition shouldRetry (r : RecoveryManager) (attempt : Z)
    (classification : ErrorClassification) : bool :=
  if ErrorSeverity_beq (severity classification) fatal then false
  else match retryTarget classification with
       | None => false
       | Some _ => attempt <? maxAttempts r
       end.

Definition getMaxAttempts (r : RecoveryManager) : Z := maxAttempts r.

(** ** Data flow ([data-flow.ts]) *)

Definition SUCCESS_TRIGGERS (s : State) : option Trigger :=
  match s with
  | ANALYZING => Some ANALYSIS_OK
  | SEARCHING => Some SEARCH_OK
  | PLANNING => Some PLAN_OK
  | GENERATING => Some GENERATION_OK
  | APPLYING => Some APPLY_OK
  | BUILDING => Some BUILD_OK
  | TESTING => Some TEST_OK
  | REVIEWING => Some REVIEW_OK
  | SUBMITTING => Some SUBMIT_OK
  | _ => None
  end.

(** [workflowDataToContext]: the entries whose value is not [undefined]. *)
Definition workflowDataToContext (data : Context) : Context :=
  filter (fun kv => isUndefined kv.2 = false) data.

(** ** The orchestrator ([workflow.ts], [agent-coordinator.ts])

    Logging and timing are left out; they touch neither the machine nor the
    store. *)

Inductive WorkflowStatus : Type :=
  | running | completed | failed | paused | cancelled.

(** What a handler can ask of the orchestrator while it runs
    ([orchestrator.pause()], [orchestrator.cancel()]). *)
Inductive Request : Type := AsksNothing | AsksPause | AsksCancel.

(** One execution of a [StateHandler]: the partial update it resolves with,
    or the value it rejects with. *)
Record HandlerRun : Type := mkRun {
  outcome : Exn + Context;
  request : Request;
}.

Definition StateHandler : Type := Context -> HandlerRun.

(** [AgentCoordinator]: the registry of handlers. *)
Definition AgentCoordinator : Type := State -> option StateHandler.

Record Orchestrator : Type := mkOrchestrator {
  recovery : RecoveryManager;
  data : Context;
  pauseRequested : bool;
  cancelRequested : bool;
  lastError : option ErrorClassification;
}.

Record World : Type := mkWorld {
  orch : Orchestrator;
  sys : Sys;
}.

Definition W : Type -> Type := Eff World Exn.

(** The [Error] objects [transition] throws, with their messages. *)
Definition toExn (t : Thrown) : Exn :=
  match t with
  | InvalidTransition trigger from =>
      ErrorObject ("Invalid transition: Trigger [" ++ triggerName trigger
                   ++ "] is not valid from state [" ++ stateName from ++ "]")%string None
  | GuardRejected to =>
      ErrorObject ("Transition to [" ++ stateName to ++ "] rejected by guard logic.")%string None
  | StorageError reason => ErrorObject reason None
  end.

(** A call into the machine from the orchestrator. *)
Definition onSys {A} (c : M A) : W A := fun w =>
  match c (sys w) with
  | (inr a, s) => (inr a, mkWorld (orch w) s)
  | (inl t, s) => (inl (toExn t), mkWorld (orch w) s)
  end.

Definition onOrch (f : Orchestrator -> Orchestrator) : W unit :=
  modify (fun w => mkWorld (f (orch w)) (sys w)).

Definition self : W Orchestrator := fun w => (inr (orch w), w).

Definition setData (x : Context) (o : Orchestrator) : Orchestrator :=
  mkOrchestrator (recovery o) x (pauseRequested o) (cancelRequested o) (lastError o).
Definition setLastError (x : option ErrorClassification) (o : Orchestrator) : Orchestrator :=
  mkOrchestrator (recovery o) (data o) (pauseRequested o) (cancelRequested o) x.

(** [pause()], [cancel()] *)
Definition pause (o : Orchestrator) : Orchestrator :=
  mkOrchestrator (recovery o) (data o) true (cancelRequested o) (lastError o).
Definition cancel (o : Orchestrator) : Orchestrator :=
  mkOrchestrator (recovery o) (data o) (pauseRequested o) true (lastError o).

Definition serve (r : Request) : W unit :=
  match r with
  | AsksNothing => mret tt
  | AsksPause => onOrch pause
  | AsksCancel => onOrch cancel
  end.

(** [shouldContinue] *)
Definition shouldContinue (s : State) : bool :=
  negb (existsb (State_beq s) [DONE; CANCELLED; PAUSED]).

(** [mapStateToStatus] *)
Definition mapStateToStatus (s : State) : WorkflowStatus :=
  match s with
  | DONE => completed
  | CANCELLED => cancelled
  | PAUSED => paused
  | ERROR => failed
  | _ => running
  end.

Record WorkflowResult : Type := mkResult {
  status : WorkflowStatus;
  finalState : State;
  r_data : Context;
  r_attempt : Z;
  r_error : option ErrorPayload;
}.

Definition payloadOf (c : ErrorClassification) : ErrorPayload :=
  mkErrorPayload (code c) (message c) (details c).

Section Workflow.

Variable table : State -> Trigger -> option State.
Variable guards : GuardTable.
Variable coordinator : AgentCoordinator.

(** The value of [new Date().toISOString()] during the calls below; it
    only reaches [updatedAt] and the event's [timestamp]. *)
Variable now : string.

(** [AgentCoordinator.execute] *)
Definition execute (s : State) (d : Context) : W Context :=
  match coordinator s with
  | None =>
      throw (ErrorObject ("No handler registered for state: " ++ stateName s)%string None)
  | Some handler =>
      let run := handler d in
      serve (request run);;
      match outcome run with
      | inr partial => mret partial
      | inl e => throw e
      end
  end.

(** [executeState] *)
Definition executeState (s : State) : W unit :=
  match SUCCESS_TRIGGERS s with
  | None => mret tt
  | Some trigger =>
      tryCatch
        (o ← self;
         result ← execute s (data o);
         onOrch (setData (spread (data o) result));;
         o ← self;
         onSys (transition table guards trigger
                  (Some (mkPayload (Some (workflowDataToContext (data o))) None)) now))
        (fun error =>
           onOrch (setLastError (Some (classify error s)));;
           o ← self;
           let c := classify error s in
           onSys (transition table guards FAIL
                    (Some (mkPayload (Some (workflowDataToContext (data o)))
                                     (Some (payloadOf c)))) now))
  end.

(** [attemptRecovery] *)
Definition attemptRecovery : W bool :=
  o ← self;
  match lastError o with
  | None => mret false
  | Some err =>
      m ← onSys this;
      if negb (shouldRetry (recovery o) (attempt m) err) then mret false
      else
        tryCatch
          (onSys (transition table guards RETRY None now);;
           onOrch (setLastError None);;
           mret true)
          (fun _ => mret false)
  end.

(** [buildResult] *)
Definition buildResult (st : WorkflowStatus) : W WorkflowResult :=
  o ← self;
  m ← onSys this;
  mret (mkResult st (state m) (data o) (attempt m)
          (match st, lastError o with
           | failed, Some c => Some (payloadOf c)
           | _, _ => None
           end)).

(** The body of the [while] loop of [executeLoop]; [true] stands for
    reaching the end of the body or [continue], [false] for [break]. *)
Definition loopBody (currentState : State) : W bool :=
  if State_beq currentState ERROR
  then
    recovered ← attemptRecovery;
    mret recovered
  else
    o ← self;
    if pauseRequested o
    then
      onSys (transition table guards PAUSE
               (Some (mkPayload (Some (workflowDataToContext (data o))) None)) now);;
      mret false
    else if cancelRequested o
    then
      onSys (transition table guards CANCEL
               (Some (mkPayload (Some (workflowDataToContext (data o))) None)) now);;
      mret false
    else
      executeState currentState;;
      mret true.

(** [executeLoop]: the loop runs for at most [fuel] iterations; [None]
    when that was not enough. *)
Fixpoint executeLoop (fuel : nat) : W (option WorkflowResult) :=
  m ← onSys this;
  if shouldContinue (state m)
  then
    match fuel with
    | O => mret None
    | S fuel' =>
        continue ← loopBody (state m);
        if continue : bool then executeLoop fuel'
        else
          m ← onSys this;
          r ← buildResult (mapStateToStatus (state m));
          mret (Some r)
    end
  else
    r ← buildResult (mapStateToStatus (state m));
    mret (Some r).

End Workflow.

(** ** Vocabulary of the properties *)

(** *** [transition], step by step, as a function of the machine *)

Section Explicit.

Variable table : State -> Trigger -> option State.
Variable guards : GuardTable.

(** Steps 1 to 3: the machine as those steps leave it (history popped,
    attempt incremented) and the destination, if any. *)
Definition resolve (m : Machine) (trigger : Trigger) : Machine * option State :=
  let override (to : State) :=
    if negb (State_beq (state m) DONE) && negb (State_beq (state m) CANCELLED)
    then Some to else table (state m) trigger in
  match trigger with
  | RESUME =>
      (setHistory (removelast (history m)) m, Some (default IDLE (last (history m))))
  | RETRY =>
      let m1 := setAttempt (attempt m + 1) m in
      match table (state m) RETRY with
      | Some mapped => (m1, Some mapped)
      | None =>
          (setHistory (removelast (history m)) m1,
           Some (default IDLE (last (history m))))
      end
  | PAUSE => (m, override PAUSED)
  | CANCEL => (m, override CANCELLED)
  | FAIL => (m, override ERROR)
  | _ => (m, table (state m) trigger)
  end.

(** Step 5. *)
Definition guardAccepts (to : State) (ctx : Context) : bool :=
  match guards to with
  | Some guard => guard ctx
  | None => true
  end.

(** Steps 6 and 7. *)
Definition commit (m : Machine) (trigger : Trigger) (payload : option Payload)
    (to : State) : Machine :=
  let h :=
    if negb (isControl (state m))
       && negb (Trigger_beq trigger RESUME) && negb (Trigger_beq trigger RETRY)
    then (history m ++ [state m])%list else history m in
  mkMachine (store m) (runId m) to h (attempt m)
            (spreadOpt (context m) (payloadContext payload)).

(** The record of step 8. *)
Definition persistedOf (m : Machine) (payload : option Payload) (now : string)
    : PersistedState :=
  mkPersisted (runId m) (state m) now (attempt m) (context m)
              (payloadError payload) (history m).

Definition transition_steps (trigger : Trigger) (payload : option Payload)
    (now : string) (s : Sys) : (Thrown + unit) * Sys :=
  let (m1, next) := resolve (machine s) trigger in
  match next with
  | None =>
      (inl (InvalidTransition trigger (state m1)), mkSys m1 (disk s) (delivered s))
  | Some to =>
      if guardAccepts to (spreadOpt (context m1) (payloadContext payload))
      then
        let m2 := commit m1 trigger payload to in
        match save (store m2) (persistedOf m2 payload now) (disk s) with
        | (inr _, d) =>
            (inr tt,
             mkSys m2 d
               (delivered s
                ++ [mkDelivery (mkEvent (state (machine s)) to trigger (runId m2) now) d]))
        | (inl reason, d) =>
            (inl (StorageError reason), mkSys m2 d (delivered s))
        end
      else (inl (GuardRejected to), mkSys m1 (disk s) (delivered s))
  end.

(** *** Sequences of calls *)

Record Call : Type := mkCall {
  c_trigger : Trigger;
  c_payload : option Payload;
  c_now : string;
}.

Definition call (c : Call) : M unit :=
  transition table guards (c_trigger c) (c_payload c) (c_now c).

(** The calls made one after the other, whatever each one's outcome (a
    caller may catch a rejection and go on). *)
Fixpoint runCalls (cs : list Call) (s : Sys) : Sys :=
  match cs with
  | [] => s
  | c :: rest => runCalls rest (call c s).2
  end.

(** The calls made one after the other, every one of them committed. *)
Fixpoint commitAll (cs : list Call) (s : Sys) : option Sys :=
  match cs with
  | [] => Some s
  | c :: rest =>
      match call c s with
      | (inr _, s') => commitAll rest s'
      | (inl _, _) => None
      end
  end.

(** The systems a machine created with [new StateMachine] can be in after
    any number of calls of [transition]. *)
Inductive reachable : Sys -> Prop :=
  | reachable_new st id d : reachable (mkSys (newMachine st id) d [])
  | reachable_call s c : reachable s -> reachable (call c s).2.

End Explicit.

(** A trigger of the forward path. *)
Definition isForward (t : Trigger) : bool :=
  match t with
  | PAUSE | RESUME | CANCEL | FAIL | RETRY => false
  | _ => true
  end.

(** The forward path, in order. *)
Definition pipeline : list State :=
  [IDLE; ANALYZING; SEARCHING; PLANNING; GENERATING; APPLYING; BUILDING;
   TESTING; REVIEWING; SUBMITTING; DONE].

(** No control state occurs in a history. *)
Definition onlyCore (h : list State) : Prop := Forall (fun s => isControl s = false) h.

(** The spec's operational states: the core states. *)
Definition operational (s : State) : Prop := isControl s = false.

(** *** The spec's wording of the pattern match *)

(** Case-insensitive substring matching of a message against a catalog. *)
Definition matchesIgnoringCase (patterns : list string) (msg : string) : bool :=
  existsb (fun p => includes (toLowerCase msg) (toLowerCase p)) patterns.

(** *** Atomicity of a write protocol *)

(** Whoever looks at [path] while the calls [cs] are under way sees what
    was there before or the complete new document. *)
Definition atomicAt (path : string) (doc : PersistedState) (cs : list FsCall)
    (d : Disk) : Prop :=
  ∀ d', d' ∈ midway cs d ->
        files d' !! path = files d !! path ∨ files d' !! path = Some (Complete doc).

(** The states the machine was in when each of the calls was made. *)
Fixpoint visited (table : State -> Trigger -> option State) (guards : GuardTable)
    (cs : list Call) (s : Sys) : list State :=
  match cs with
  | [] => []
  | c :: rest =>
      state (machine s) :: visited table guards rest (call table guards c s).2
  end.

(** The record behind a delivered event: what [load] returns on the disk the
    subscriber finds. *)
Definition persistedBehind (st : StateStore) (dl : Delivery) : Prop :=
  ∃ rec, loaded st (seen dl) = Some rec
         ∧ currentState rec = ev_to (event dl)
         ∧ updatedAt rec = ev_timestamp (event dl).

(** *** Sample systems *)

Definition sampleStore : StateStore := mkStore ".osc-agent/run-1/state.json".

(** A fresh machine over an empty disk. *)
Definition freshSys : Sys := mkSys (newMachine sampleStore "run-1") emptyDisk [].

(** A disk on which the run directory's name is taken by a file, so that
    [mkdir] and with it [save] fails. *)
Definition blockedDisk : Disk :=
  mkDisk {[ ".osc-agent/run-1" := Complete (mkPersisted "other" IDLE "" 1 ∅ None []) ]} ∅.

Definition blockedSys : Sys := mkSys (newMachine sampleStore "run-1") blockedDisk [].

(** A context that satisfies the guards of both guard tables. *)
Definition readyContext : Context :=
  {[ "query" := JString "crash on null input";
     "analysis" := JObject [("type", JString "bug")];
     "searchResults" := JArray [JObject [("filePath", JString "src/widget.ts")]] ]}.

Definition withContext (trigger : Trigger) (now : string) : Call :=
  mkCall trigger (Some (mkPayload (Some readyContext) None)) now.

Definition bare (trigger : Trigger) (now : string) : Call :=
  mkCall trigger None now.

(** The forward path from [START] to [SUBMIT_OK]. *)
Definition forwardCalls : list Call :=
  [withContext START "t01"; withContext ANALYSIS_OK "t02";
   withContext SEARCH_OK "t03"; withContext PLAN_OK "t04";
   withContext GENERATION_OK "t05"; withContext APPLY_OK "t06";
   withContext BUILD_OK "t07"; withContext TEST_OK "t08";
   withContext REVIEW_OK "t09"; withContext SUBMIT_OK "t10"].

(** A machine that has run the whole pipeline. *)
Definition doneSys : Sys := runCalls transitions transitionGuards forwardCalls freshSys.

(** A machine that has reached [SEARCHING]. *)
Definition searchingSys : Sys :=
  runCalls transitions transitionGuards (take 2 forwardCalls) freshSys.

(** Two records of one run, and the disk on which the first has been
    saved. *)
Definition recordA : PersistedState :=
  mkPersisted "run-1" ANALYZING "t1" 1 ∅ None [IDLE].

Definition recordB : PersistedState :=
  mkPersisted "run-1" SEARCHING "t2" 1 readyContext None [IDLE; ANALYZING].

Definition diskA : Disk := (save sampleStore recordA emptyDisk).2.

(** [diskA] at the moment the file has been opened for writing [recordB]. *)
Definition tornDisk : Disk :=
  mkDisk (<[storagePath sampleStore := Partial (JSON_stringify recordB)]> (files diskA))
         (dirs diskA).

(** A machine that has reached [ANALYZING]. *)
Definition analyzingSys : Sys :=
  runCalls transitions transitionGuards [bare START "t01"] freshSys.

(** A context with a query and no analysis, and one with an analysis and no
    query (what the [ANALYZING] handler of the pipeline produces). *)
Definition queryOnly : Context := {[ "query" := JString "crash on null input" ]}.
Definition analysisOnly : Context := {[ "analysis" := JObject [("type", JString "bug")] ]}.

Definition carrying (ctx : Context) : option Payload :=
  Some (mkPayload (Some ctx) None).

(** A machine that has reached [TESTING], an orchestrator over it, and a
    coordinator whose [TESTING] handler rejects. *)
Definition testingSys : Sys :=
  runCalls transitions transitionGuards (take 7 forwardCalls) freshSys.

Definition testingWorld (limit : Z) : World :=
  mkWorld (mkOrchestrator (mkRecovery limit) readyContext false false None) testingSys.

Definition failingTests : AgentCoordinator := fun s =>
  match s with
  | TESTING => Some (fun _ => mkRun (inl (ErrorObject "All tests failed" None)) AsksNothing)
  | _ => None
  end.

(** A machine that has reached [PLANNING]. *)
Definition planningSys : Sys :=
  runCalls transitions transitionGuards (take 3 forwardCalls) freshSys.

(** An orchestrator over [analyzingSys] whose [ANALYZING] handler resolves
    with an analysis, as the pipeline's does. *)
Definition analyzingWorld : World :=
  mkWorld (mkOrchestrator defaultRecovery
             {[ "input" := JObject [("owner", JString "acme"); ("repo", JString "widget");
                                    ("issueNumber", JNumber 7)] ]}
             false false None)
          analyzingSys.

Definition analysing : AgentCoordinator := fun s =>
  match s with
  | ANALYZING => Some (fun _ => mkRun (inr analysisOnly) AsksNothing)
  | _ => None
  end.

(** The forward path alone, without the [ERROR]/[RETRY] entry. *)
Definition forwardOnly (s : State) (t : Trigger) : option State :=
  match s, t with
  | ERROR, RETRY => None
  | _, _ => transitions s t
  end.

(** *** What a computation leaves alone *)

(** Every run of [c] relates the state it starts in to the state it ends
    in, whether it returns or throws. *)
Definition preserves {S E A} (R : S -> S -> Prop) (c : Eff S E A) : Prop :=
  ∀ s, R s (c s).2.

(** The retry budget and the attempt counter are the same in both worlds. *)
Definition sameRun (w w' : World) : Prop :=
  recovery (orch w') = recovery (orch w)
  ∧ attempt (machine (sys w')) = attempt (machine (sys w)).

(** ** More of the orchestrator

    The rest of the modules above: the data-flow bridge, the coordinator's
    registry, the entry points [run] and [resume], and the helper of the
    handler registration that removes duplicate search hits. *)

(** *** Data flow ([data-flow.ts]) *)

(** [OPERATIONAL_STATES] *)
Definition OPERATIONAL_STATES : list State :=
  [ANALYZING; SEARCHING; PLANNING; GENERATING; APPLYING; BUILDING; TESTING;
   REVIEWING; SUBMITTING].

(** [{ owner: '', repo: '', issueNumber: 0 }] *)
Definition emptyInput : JValue :=
  JObject [("owner", JString ""); ("repo", JString ""); ("issueNumber", JNumber 0)].

(** [a ?? b] *)
Definition nullish (a b : JValue) : JValue :=
  match a with
  | JUndefined | JNull => b
  | _ => a
  end.

(** The fields of [WorkflowData] besides [input], in the order of
    [contextToWorkflowData]. *)
Definition stageFields : list string :=
  ["issue"; "analysis"; "searchResults"; "plan"; "fixProposal"; "applyResult";
   "buildResult"; "testResult"; "reviewResult"; "submission"; "costMetrics"].

(** [contextToWorkflowData]: an object with the twelve fields of
    [WorkflowData]; a field the context lacks is there with the value
    [undefined]. *)
Definition contextToWorkflowData (context : Context) : Context :=
  list_to_map
    (("input", nullish (prop context "input") emptyInput)
     :: map (fun k => (k, prop context k)) stageFields).

(** *** The coordinator's registry ([agent-coordinator.ts])

    [handlers] is a [Map]: its keys are kept in the order in which they were
    first set, and setting a key again replaces the value where it is. *)

Definition HandlerMap : Type := list (State * StateHandler).

(** [new AgentCoordinator()] *)
Definition noHandlers : HandlerMap := [].

(** [this.handlers.set(state, handler)] *)
Fixpoint registerHandler (state : State) (handler : StateHandler) (handlers : HandlerMap)
    : HandlerMap :=
  match handlers with
  | [] => [(state, handler)]
  | (k, h) :: rest =>
      if State_beq k state then (k, handler) :: rest
      else (k, h) :: registerHandler state handler rest
  end.

(** [this.handlers.get(state)] *)
Fixpoint handlerOf (handlers : HandlerMap) (state : State) : option StateHandler :=
  match handlers with
  | [] => None
  | (k, h) :: rest => if State_beq k state then Some h else handlerOf rest state
  end.

(** [hasHandler] *)
Definition hasHandler (handlers : HandlerMap) (state : State) : bool :=
  match handlerOf handlers state with
  | Some _ => true
  | None => false
  end.

(** [getRegisteredStates] *)
Definition getRegisteredStates (handlers : HandlerMap) : list State :=
  map fst handlers.

(** The coordinator as [execute] uses it. *)
Definition coordinatorOf (handlers : HandlerMap) : AgentCoordinator :=
  handlerOf handlers.

(** *** The entry points ([workflow.ts]) *)

Section EntryPoints.

Variable table : State -> Trigger -> option State.
Variable guards : GuardTable.
Variable coordinator : AgentCoordinator.
Variable now : string.

(** [run(input)] *)
Definition run (input : JValue) (fuel : nat) : W (option WorkflowResult) :=
  onOrch (fun o =>
    mkOrchestrator (recovery o) {[ "input" := input ]} false false None);;
  onSys initialize;;
  m ← onSys this;
  (if State_beq (state m) IDLE
   then
     o ← self;
     onSys (transition table guards START
              (Some (mkPayload (Some (workflowDataToContext (data o))) None)) now)
   else mret tt);;
  executeLoop table guards coordinator now fuel.

(** [resume()] *)
Definition resume (fuel : nat) : W (option WorkflowResult) :=
  onOrch (fun o =>
    mkOrchestrator (recovery o) (data o) false false None);;
  onSys initialize;;
  m ← onSys this;
  onOrch (setData (contextToWorkflowData (context m)));;
  let currentState := state m in
  if State_beq currentState PAUSED
  then
    onSys (transition table guards RESUME None now);;
    executeLoop table guards coordinator now fuel
  else if State_beq currentState ERROR
  then
    canRecover ← attemptRecovery table guards now;
    if canRecover : bool
    then executeLoop table guards coordinator now fuel
    else r ← buildResult failed; mret (Some r)
  else executeLoop table guards coordinator now fuel.

End EntryPoints.

(** *** Search hits ([register-handlers.ts]) *)

Section Hits.

(** A hit is any object with a [file]. *)
Context {Hit : Type} (file : Hit -> string).

(** The [filter] of [deduplicateHitsByFile], with the set [seen] it
    updates. *)
Fixpoint keepUnseen (seen : gset string) (hits : list Hit) : list Hit :=
  match hits with
  | [] => []
  | h :: rest =>
      if decide (file h ∈ seen) then keepUnseen seen rest
      else h :: keepUnseen ({[file h]} ∪ seen) rest
  end.

(** [deduplicateHitsByFile] *)
Definition deduplicateHitsByFile (hits : list Hit) : list Hit :=
  keepUnseen ∅ hits.

End Hits.

(** *** Vocabulary of the further properties *)

(** No [undefined] at any depth: a value as [JSON.parse] returns them. *)
Fixpoint isJson (v : JValue) : bool :=
  match v with
  | JUndefined => false
  | JArray items => forallb isJson items
  | JObject fields =>
      (fix all (fs : list (string * JValue)) : bool :=
         match fs with
         | [] => true
         | (_, x) :: rest => isJson x && all rest
         end) fields
  | _ => true
  end.

(** The events of the calls of [cs] that commit, in order. *)
Fixpoint committedEvents (table : State -> Trigger -> option State) (guards : GuardTable)
    (cs : list Call) (s : Sys) : list StateChangeEvent :=
  match cs with
  | [] => []
  | c :: rest =>
      let out := call table guards c s in
      (match out.1 with
       | inr _ =>
           [mkEvent (state (machine s)) (state (machine out.2)) (c_trigger c)
                    (runId (machine s)) (c_now c)]
       | inl _ => []
       end ++ committedEvents table guards rest out.2)%list
  end.

(** [save] can go through: the parent's name is not taken by a file, and
    the path is neither a directory nor the parent's own name. *)
Definition writable (st : StateStore) (d : Disk) : Prop :=
  files d !! dirname (storagePath st) = None
  ∧ (storagePath st ∉ dirs d)
  ∧ storagePath st ≠ dirname (storagePath st).

(** *** Vocabulary of the orchestrator's properties *)

(** The store of the machine can be written. *)
Definition canSave (w : World) : Prop :=
  writable (store (machine (sys w))) (disk (sys w)).

(** A store that can be written stays so. *)
Definition steady (w w' : World) : Prop := canSave w -> canSave w'.

(** The budget is the same, and the attempt counter has not gone down nor
    past the larger of its old value and the budget. *)
Definition withinBudget (w w' : World) : Prop :=
  recovery (orch w') = recovery (orch w)
  ∧ attempt (machine (sys w)) <= attempt (machine (sys w'))
  ∧ attempt (machine (sys w'))
    <= Z.max (attempt (machine (sys w))) (maxAttempts (recovery (orch w))).

(** An orchestrator over a fresh machine and an empty disk. *)
Definition freshWorld : World :=
  mkWorld (mkOrchestrator defaultRecovery ∅ false false None) freshSys.

(** A new process over the disk that a finished run has left. *)
Definition finishedWorld : World :=
  mkWorld (mkOrchestrator defaultRecovery ∅ false false None)
          (mkSys (newMachine sampleStore "run-1") (disk doneSys) []).

(** A run that failed in [TESTING], whose run directory has since been
    replaced by a file. *)
Definition strandedWorld : World :=
  let w := (executeState transitions transitionGuards failingTests "t08" TESTING
              (testingWorld 3)).2 in
  mkWorld (orch w) (mkSys (machine (sys w)) blockedDisk (delivered (sys w))).

(** A run in [TESTING] for which both a pause and a cancel have been
    requested. *)
Definition pausingWorld : World :=
  mkWorld (mkOrchestrator defaultRecovery readyContext true true None) testingSys.

(** A new process over the disk that a run which failed in [TESTING] has
    left. *)
Definition crashedWorld : World :=
  let w := (executeState transitions transitionGuards failingTests "t08" TESTING
              (testingWorld 3)).2 in
  mkWorld (mkOrchestrator defaultRecovery ∅ false false None)
          (mkSys (newMachine sampleStore "run-1") (disk (sys w)) []).

(** The number of handlers still to run before [DONE], on the forward
    path. *)
Definition stepsToDone (s : State) : option nat :=
  match s with
  | ANALYZING => Some 9%nat
  | SEARCHING => Some 8%nat
  | PLANNING => Some 7%nat
  | GENERATING => Some 6%nat
  | APPLYING => Some 5%nat
  | BUILDING => Some 4%nat
  | TESTING => Some 3%nat
  | REVIEWING => Some 2%nat
  | SUBMITTING => Some 1%nat
  | DONE => Some 0%nat
  | _ => None
  end.

(** Every operational state has a handler, and every handler resolves and
    asks for neither a pause nor a cancel. *)
Definition allResolve (coordinator : AgentCoordinator) : Prop :=
  ∀ s, s ∈ OPERATIONAL_STATES ->
       ∃ h, coordinator s = Some h
            ∧ ∀ d, request (h d) = AsksNothing ∧ ∃ partial, outcome (h d) = inr partial.

(** A coordinator whose handlers all resolve with nothing, as the mocked
    agents of the orchestrator's tests. *)
Definition idleAgents : AgentCoordinator := fun s =>
  match SUCCESS_TRIGGERS s with
  | Some _ => Some (fun _ => mkRun (inr ∅) AsksNothing)
  | None => None
  end.

(** A transition map that has the forward path: [START] leaves [IDLE] for
    [ANALYZING], and the success trigger of each operational state leads
    one step closer to [DONE]. *)
Definition followsPipeline (table : State -> Trigger -> option State) : Prop :=
  table IDLE START = Some ANALYZING
  ∧ ∀ s n, stepsToDone s = Some (S n) ->
           ∃ trigger to, SUCCESS_TRIGGERS s = Some trigger
                         ∧ table s trigger = Some to
                         ∧ stepsToDone to = Some n.

(** ** Properties *)

(** *** The step-by-step form of [transition] *)

Ltac eff_unfold :=
  unfold mbind, mret, Eff_bind, Eff_ret, throw, get, modify, tryCatch in *.

Lemma transition_unfold table guards trigger payload now s :
  transition table guards trigger payload now s
  = transition_steps table guards trigger payload now s.
Proof.
  destruct s as [[st id cur h a ctx] d ev].
  unfold transition, transition_steps, resolve, guardAccepts, commit,
    persistedOf, historyPop, historyPush, onMachine, this, storeSave,
    emitTransition, setHistory, setAttempt, setState, setContext.
  eff_unfold.
  set (sv := save); clearbody sv.
  destruct trigger; cbn;
    try destruct (table cur _); cbn;
    try destruct (State_beq cur DONE); cbn;
    try destruct (State_beq cur CANCELLED); cbn;
    try destruct (table cur _); cbn;
    try reflexivity;
    try destruct (guards _) as [g|]; cbn;
    try destruct (g _); cbn;
    try reflexivity;
    destruct (isControl cur); cbn;
    destruct (payloadContext payload); cbn;
    try destruct (sv _ _ _) as [[?|?] ?]; reflexivity.
Qed.

(** The outcomes of a call. *)
Lemma transition_cases table guards trigger payload now s :
  let m1 := (resolve table (machine s) trigger).1 in
  let out := transition table guards trigger payload now s in
  match (resolve table (machine s) trigger).2 with
  | None =>
      out = (inl (InvalidTransition trigger (state m1)), mkSys m1 (disk s) (delivered s))
  | Some to =>
      if guardAccepts guards to (spreadOpt (context m1) (payloadContext payload))
      then
        let m2 := commit m1 trigger payload to in
        (∃ d, save (store m2) (persistedOf m2 payload now) (disk s) = (inr tt, d)
              ∧ out = (inr tt,
                       mkSys m2 d
                         (delivered s
                          ++ [mkDelivery (mkEvent (state (machine s)) to trigger (runId m2) now) d])))
        ∨ (∃ reason d,
              save (store m2) (persistedOf m2 payload now) (disk s) = (inl reason, d)
              ∧ out = (inl (StorageError reason), mkSys m2 d (delivered s)))
      else out = (inl (GuardRejected to), mkSys m1 (disk s) (delivered s))
  end.
Proof.
  cbn zeta. rewrite transition_unfold. unfold transition_steps.
  destruct (resolve table (machine s) trigger) as [m1 [to|]]; cbn; [|reflexivity].
  destruct (guardAccepts _ _ _); [|reflexivity].
  destruct (save _ _ _) as [[reason|[]] d]; [right|left]; eauto.
Qed.

(** *** The attempt counter *)

Lemma resolve_attempt table m trigger :
  attempt (resolve table m trigger).1
  = if Trigger_beq trigger RETRY then attempt m + 1 else attempt m.
Proof.
  unfold resolve. destruct trigger; cbn; try reflexivity.
  destruct (table (state m) RETRY); reflexivity.
Qed.

Lemma resolve_fixed table m trigger :
  let m1 := (resolve table m trigger).1 in
  store m1 = store m ∧ runId m1 = runId m ∧ state m1 = state m
  ∧ context m1 = context m.
Proof.
  unfold resolve. destruct trigger; cbn; auto.
  destruct (table (state m) RETRY); cbn; auto.
Qed.

Lemma transition_attempt table guards trigger payload now s :
  attempt (machine (transition table guards trigger payload now s).2)
  = if Trigger_beq trigger RETRY then attempt (machine s) + 1
    else attempt (machine s).
Proof.
  rewrite transition_unfold. unfold transition_steps.
  pose proof (resolve_attempt table (machine s) trigger) as Ha.
  destruct (resolve table (machine s) trigger) as [m1 [to|]]; cbn in *;
    [|exact Ha].
  destruct (guardAccepts _ _ _); cbn; [|exact Ha].
  destruct (save _ _ _) as [[?|?] ?]; cbn; exact Ha.
Qed.

Lemma runCalls_attempt table guards cs s :
  attempt (machine s) <= attempt (machine (runCalls table guards cs s)).
Proof.
  revert s. induction cs as [|c cs IH]; intros s; cbn; [lia|].
  etransitivity; [|apply IH].
  unfold call. rewrite transition_attempt.
  destruct (Trigger_beq _ _); lia.
Qed.

Lemma reachable_attempt table guards s :
  reachable table guards s -> 1 <= attempt (machine s).
Proof.
  induction 1 as [st id d|s c0 _ IH]; cbn; [lia|].
  unfold call. rewrite transition_attempt. destruct (Trigger_beq _ _); lia.
Qed.

(** C8.  A committed [RETRY] adds exactly one to [attempt], a committed
    transition on any other trigger leaves it as it was; so [attempt] never
    decreases over the calls of a run. *)
Theorem C8_attempt_counts_retries table guards trigger payload now s s'
    (Hcommit : transition table guards trigger payload now s = (inr tt, s')) :
  (trigger = RETRY -> attempt (machine s') = attempt (machine s) + 1)
  ∧ (trigger ≠ RETRY -> attempt (machine s') = attempt (machine s))
  ∧ (∀ cs s0, attempt (machine s0) <= attempt (machine (runCalls table guards cs s0))).
Proof.
  pose proof (transition_attempt table guards trigger payload now s) as Ha.
  rewrite Hcommit in Ha. cbn in Ha.
  split; [|split].
  - intros ->. exact Ha.
  - intros Hne. rewrite Ha. destruct trigger; try reflexivity. congruence.
  - intros cs s0. apply runCalls_attempt.
Qed.

Lemma C8_witness :
  let s := (transition transitions transitionGuards FAIL None "t1" freshSys).2 in
  attempt (machine (transition transitions transitionGuards RETRY None "t2" s).2)
  = attempt (machine s) + 1.
Proof.
  cbn zeta.
  eapply (C8_attempt_counts_retries transitions transitionGuards RETRY None "t2");
    [|reflexivity].
  vm_compute. reflexivity.
Defined.

(** *** A failing save *)

(** C2, as the code has it.  When the store's save fails, the call rejects
    with the storage error and no [stateChange] event is emitted, but
    nothing is reverted: the machine holds the destination state, the merged
    context, the pushed checkpoint and the incremented attempt, exactly as
    after a commit whose save succeeded. *)
Theorem C2_save_failure_keeps_update table guards trigger payload now s reason s'
    (Hfail : transition table guards trigger payload now s
             = (inl (StorageError reason), s')) :
  delivered s' = delivered s
  ∧ (∃ to, (resolve table (machine s) trigger).2 = Some to
           ∧ state (machine s') = to
           ∧ machine s'
             = commit (resolve table (machine s) trigger).1 trigger payload to)
  ∧ (∀ s2 s2', machine s2 = machine s ->
        transition table guards trigger payload now s2 = (inr tt, s2') ->
        machine s2' = machine s').
Proof.
  pose proof (transition_cases table guards trigger payload now s) as Hc.
  cbn zeta in Hc. rewrite Hfail in Hc.
  destruct (resolve table (machine s) trigger) as [m1 [to|]] eqn:Hres;
    cbn in Hc; [|discriminate].
  destruct (guardAccepts guards to _) eqn:Hg; [|discriminate].
  destruct Hc as [(d & _ & Hc)|(r & d & _ & Hc)]; [discriminate|].
  injection Hc as _ ->. cbn.
  split; [reflexivity|]. split; [eauto|].
  intros s2 s2' Hm Hok.
  pose proof (transition_cases table guards trigger payload now s2) as Hc2.
  cbn zeta in Hc2. rewrite Hok, Hm, Hres in Hc2. cbn in Hc2.
  rewrite Hg in Hc2.
  destruct Hc2 as [(d2 & _ & Hc2)|(r2 & d2 & _ & Hc2)]; [|discriminate].
  injection Hc2 as ->. reflexivity.
Qed.

(** The claim C2 fails on: from [IDLE], [START] with a failing save leaves
    the machine in [ANALYZING] with [IDLE] pushed on the history. *)
Lemma C2_counterexample :
  let out := transition transitions transitionGuards START None "t1" blockedSys in
  out.1 = inl (StorageError "EEXIST: file already exists, mkdir .osc-agent/run-1")
  ∧ state (machine blockedSys) = IDLE
  ∧ state (machine out.2) = ANALYZING
  ∧ history (machine blockedSys) = []
  ∧ history (machine out.2) = [IDLE].
Proof. vm_compute. repeat split. Qed.

Lemma C2_witness :
  delivered (transition transitions transitionGuards START None "t1" blockedSys).2
  = delivered blockedSys.
Proof.
  eapply (C2_save_failure_keeps_update transitions transitionGuards START None "t1"
            blockedSys "EEXIST: file already exists, mkdir .osc-agent/run-1").
  vm_compute. reflexivity.
Defined.

(** *** History *)

Lemma onlyCore_removelast h : onlyCore h -> onlyCore (removelast h).
Proof.
  unfold onlyCore. induction h as [|x [|y h] IH]; intros H; cbn; auto.
  inversion H; subst. constructor; auto.
Qed.

Lemma resolve_onlyCore table m trigger :
  onlyCore (history m) -> onlyCore (history (resolve table m trigger).1).
Proof.
  intros H. unfold resolve. destruct trigger; cbn; auto using onlyCore_removelast.
  destruct (table (state m) RETRY); cbn; auto using onlyCore_removelast.
Qed.

Lemma commit_onlyCore m trigger payload to :
  onlyCore (history m) -> onlyCore (history (commit m trigger payload to)).
Proof.
  intros H. unfold commit. cbn.
  destruct (isControl (state m)) eqn:Hc; cbn; [exact H|].
  destruct (negb (Trigger_beq trigger RESUME) && negb (Trigger_beq trigger RETRY));
    [|exact H].
  apply Forall_app. split; [exact H|]. constructor; [exact Hc|constructor].
Qed.

Lemma transition_machine table guards trigger payload now s :
  let m1 := (resolve table (machine s) trigger).1 in
  let m' := machine (transition table guards trigger payload now s).2 in
  m' = m1
  ∨ ∃ to, (resolve table (machine s) trigger).2 = Some to
          ∧ guardAccepts guards to (spreadOpt (context m1) (payloadContext payload)) = true
          ∧ m' = commit m1 trigger payload to.
Proof.
  cbn zeta.
  pose proof (transition_cases table guards trigger payload now s) as Hc.
  cbn zeta in Hc.
  destruct (resolve table (machine s) trigger) as [m1 [to|]]; cbn in *.
  - destruct (guardAccepts guards to _) eqn:Hg.
    + right. exists to.
      destruct Hc as [(d & _ & ->)|(r & d & _ & ->)]; cbn; auto.
    + left. rewrite Hc. reflexivity.
  - left. rewrite Hc. reflexivity.
Qed.

Lemma transition_onlyCore table guards trigger payload now s :
  onlyCore (history (machine s)) ->
  onlyCore (history (machine (transition table guards trigger payload now s).2)).
Proof.
  intros H.
  destruct (transition_machine table guards trigger payload now s)
    as [->|(to & _ & _ & ->)];
    auto using resolve_onlyCore, commit_onlyCore.
Qed.

Lemma reachable_onlyCore table guards s :
  reachable table guards s -> onlyCore (history (machine s)).
Proof.
  induction 1 as [st id d|s c _ IH]; cbn.
  - constructor.
  - apply transition_onlyCore, IH.
Qed.

(** One committed step along the forward path. *)
Lemma forward_step guards trigger payload now s s' k :
  isForward trigger = true ->
  (k <= 10)%nat ->
  state (machine s) = nth k pipeline DONE ->
  transition transitions guards trigger payload now s = (inr tt, s') ->
  (k < 10)%nat
  ∧ state (machine s') = nth (S k) pipeline DONE
  ∧ history (machine s') = (history (machine s) ++ [state (machine s)])%list.
Proof.
  intros Hf Hk Hst Hok.
  pose proof (transition_cases transitions guards trigger payload now s) as Hc.
  cbn zeta in Hc. rewrite Hok in Hc.
  destruct s as [[st id cur h a ctx] d ev]. cbn in Hst. subst cur.
  do 11 (destruct k as [|k]; [
    destruct trigger; try discriminate Hf; cbn in Hc; try discriminate Hc;
    (destruct (guardAccepts guards _ _); [|discriminate Hc]);
    (destruct Hc as [(d' & _ & Hc)|(r & d' & _ & Hc)]; [|discriminate Hc]);
    injection Hc as ->; cbn; (split; [lia|split; reflexivity]) |]).
  lia.
Qed.

Lemma forward_run guards cs : ∀ s s' k,
  Forall (fun c => isForward (c_trigger c) = true) cs ->
  (k <= 10)%nat ->
  state (machine s) = nth k pipeline DONE ->
  commitAll transitions guards cs s = Some s' ->
  (k + length cs <= 10)%nat
  ∧ state (machine s') = nth (k + length cs) pipeline DONE
  ∧ history (machine s')
    = (history (machine s) ++ visited transitions guards cs s)%list
  ∧ visited transitions guards cs s = take (length cs) (drop k pipeline).
Proof.
  induction cs as [|c cs IH]; intros s s' k Hf Hk Hst Hrun;
    cbn [commitAll visited length] in *.
  - injection Hrun as <-. rewrite Nat.add_0_r, app_nil_r. auto.
  - inversion Hf as [|? ? Hfc Hfs]; subst.
    unfold call in *.
    destruct (transition transitions guards (c_trigger c) (c_payload c) (c_now c) s)
      as [[e|[]] s1] eqn:Hstep; [discriminate|].
    destruct (forward_step _ _ _ _ _ _ _ Hfc Hk Hst Hstep) as (Hlt & Hst1 & Hh1).
    destruct (IH s1 s' (S k) Hfs Hlt Hst1 Hrun) as (Hle & Hst' & Hh' & Hv).
    cbn [snd].
    split; [lia|]. split; [rewrite Hst'; f_equal; lia|].
    split.
    + rewrite Hh', Hh1, <- app_assoc. reflexivity.
    + rewrite Hv, Hst.
      clear -Hlt. do 10 (destruct k as [|k]; [reflexivity|]). lia.
Qed.

(** C5.  The history of a machine never holds a control state, and after
    [N] committed forward transitions from [IDLE] it is the list of the [N]
    states the machine was in when they were made: the first [N] states of
    the forward path, in order, the current state not among them. *)
Theorem C5_history_is_the_checkpoints guards :
  (∀ table s, reachable table guards s -> onlyCore (history (machine s)))
  ∧ (∀ st id d cs s',
       Forall (fun c => isForward (c_trigger c) = true) cs ->
       commitAll transitions guards cs (mkSys (newMachine st id) d []) = Some s' ->
       history (machine s')
       = visited transitions guards cs (mkSys (newMachine st id) d [])
       ∧ history (machine s') = take (length cs) pipeline
       ∧ state (machine s') = nth (length cs) pipeline DONE
       ∧ state (machine s') ∉ history (machine s')).
Proof.
  split.
  - intros table s. apply reachable_onlyCore.
  - intros st id d cs s' Hf Hrun.
    destruct (forward_run guards cs (mkSys (newMachine st id) d []) s' 0%nat
                Hf ltac:(lia) eq_refl Hrun) as (Hle & Hst & Hh & Hv).
    cbn [newMachine machine history state app Nat.add] in Hh, Hst, Hle.
    rewrite Hh, Hv, Hst. cbn [drop].
    repeat split.
    remember (length cs) as n eqn:Hn. clear -Hle.
    do 11 (destruct n as [|n]; [vm_compute; intros H; repeat
      (apply elem_of_cons in H as [H|H]; [discriminate|]); inversion H|]).
    lia.
Qed.

Lemma C5_witness :
  history (machine planningSys) = [IDLE; ANALYZING; SEARCHING]
  ∧ state (machine planningSys) = PLANNING.
Proof.
  destruct (proj2 (C5_history_is_the_checkpoints transitionGuards)
              sampleStore "run-1" emptyDisk (take 3 forwardCalls) planningSys)
    as (_ & Hh & Hs & _).
  - repeat constructor.
  - vm_compute. reflexivity.
  - split; [exact Hh|exact Hs].
Defined.

(** *** Pause and resume *)

Lemma reachable_runCalls table guards cs s :
  reachable table guards s -> reachable table guards (runCalls table guards cs s).
Proof.
  revert s. induction cs as [|c cs IH]; intros s H; cbn; [exact H|].
  apply IH. constructor. exact H.
Qed.

(** The context of a machine passes the guard of the state it is in. *)
Lemma reachable_guard table guards s :
  guards IDLE = None ->
  reachable table guards s ->
  guardAccepts guards (state (machine s)) (context (machine s)) = true.
Proof.
  intros Hidle. induction 1 as [st id d|s c _ IH]; cbn.
  - unfold guardAccepts. rewrite Hidle. reflexivity.
  - unfold call.
    destruct (transition_machine table guards (c_trigger c) (c_payload c) (c_now c) s)
      as [->|(to & _ & Hg & ->)].
    + destruct (resolve_fixed table (machine s) (c_trigger c)) as (_ & _ & -> & ->).
      exact IH.
    + exact Hg.
Qed.

(** Carrying again what the context already holds changes nothing: the
    orchestrator's [PAUSE] carries the data its last transition carried. *)
Lemma spread_again (ctx c : Context) : spread (spread ctx c) c = spread ctx c.
Proof.
  unfold spread. apply map_eq. intros k.
  rewrite !lookup_union. destruct (c !! k), (ctx !! k); reflexivity.
Qed.

(** C4, as the code has it.  From every operational state other than [DONE]
    that the machine has reached, [PAUSE] followed by [RESUME] brings the
    machine back to that state with the same context, history and attempt,
    provided neither call carries a context that changes the machine's (the
    calls carry none, or what the context already holds).  The only way
    either call can reject is a failing save, and even then the machine in
    memory is as described.  Neither shipped guard table guards [IDLE] or
    [PAUSED]. *)
Theorem C4_pause_resume_round_trip table guards s p1 t1 p2 t2
    (Hidle : guards IDLE = None)
    (Hpaused : guards PAUSED = None)
    (Hreach : reachable table guards s)
    (Hop : operational (state (machine s)))
    (Hnd : state (machine s) ≠ DONE)
    (Hp1 : spreadOpt (context (machine s)) (payloadContext p1) = context (machine s))
    (Hp2 : spreadOpt (context (machine s)) (payloadContext p2) = context (machine s)) :
  let out1 := transition table guards PAUSE p1 t1 s in
  let out2 := transition table guards RESUME p2 t2 out1.2 in
  state (machine out1.2) = PAUSED
  ∧ state (machine out2.2) = state (machine s)
  ∧ context (machine out2.2) = context (machine s)
  ∧ machine out2.2 = machine s
  ∧ (out1.1 = inr tt ∨ ∃ reason, out1.1 = inl (StorageError reason))
  ∧ (out2.1 = inr tt ∨ ∃ reason, out2.1 = inl (StorageError reason)).
Proof.
  cbn zeta.
  pose proof (reachable_guard table guards s Hidle Hreach) as Hg.
  pose proof (transition_cases table guards PAUSE p1 t1 s) as H1.
  destruct s as [[st id cur h a ctx] d ev]. cbn in Hop, Hnd, Hg, Hp1, Hp2.
  assert (Hres : resolve table (mkMachine st id cur h a ctx) PAUSE
                 = (mkMachine st id cur h a ctx, Some PAUSED)).
  { unfold resolve. cbn. destruct cur; try reflexivity; try discriminate Hop.
    congruence. }
  cbn zeta in H1. cbn [machine] in H1. rewrite Hres in H1. cbn [fst snd] in H1.
  unfold guardAccepts in H1 at 1. rewrite Hpaused in H1.
  assert (Hc1 : commit (mkMachine st id cur h a ctx) PAUSE p1 PAUSED
                = mkMachine st id PAUSED (h ++ [cur]) a ctx).
  { unfold commit. cbn. rewrite Hp1. unfold operational in Hop.
    rewrite Hop. reflexivity. }
  rewrite Hc1 in H1. cbn [store runId delivered disk] in H1.
  set (out1 := transition table guards PAUSE p1 t1 _) in *.
  assert (Hm1 : machine out1.2 = mkMachine st id PAUSED (h ++ [cur]) a ctx
                ∧ (out1.1 = inr tt ∨ ∃ reason, out1.1 = inl (StorageError reason))).
  { destruct H1 as [(d' & _ & ->)|(r & d' & _ & ->)]; cbn; eauto. }
  destruct Hm1 as [Hm1 Hr1]. clear H1.
  pose proof (transition_cases table guards RESUME p2 t2 out1.2) as H2.
  cbn zeta in H2. rewrite Hm1 in H2.
  assert (Hres2 : resolve table (mkMachine st id PAUSED (h ++ [cur]) a ctx) RESUME
                  = (mkMachine st id PAUSED h a ctx, Some cur)).
  { unfold resolve, setHistory. cbn. rewrite removelast_last, last_snoc.
    reflexivity. }
  rewrite Hres2 in H2. cbn [fst snd context] in H2.
  rewrite Hp2, Hg in H2.
  assert (Hc2 : commit (mkMachine st id PAUSED h a ctx) RESUME p2 cur
                = mkMachine st id cur h a ctx).
  { unfold commit. cbn. rewrite Hp2. reflexivity. }
  rewrite Hc2 in H2.
  set (out2 := transition table guards RESUME p2 t2 _) in *.
  assert (Hm2 : machine out2.2 = mkMachine st id cur h a ctx
                ∧ (out2.1 = inr tt ∨ ∃ reason, out2.1 = inl (StorageError reason))).
  { destruct H2 as [(d' & _ & ->)|(r & d' & _ & ->)]; cbn; eauto. }
  destruct Hm2 as [Hm2 Hr2].
  rewrite Hm1, Hm2. cbn. auto 10.
Qed.

(** The claim C4 fails on: [DONE] is an operational state the machine
    reaches; there [PAUSE] is rejected as an invalid transition, and the
    [RESUME] that follows pops the last checkpoint, [SUBMITTING]. *)
Lemma C4_counterexample :
  reachable transitions transitionGuards doneSys
  ∧ state (machine doneSys) = DONE
  ∧ operational (state (machine doneSys))
  ∧ (transition transitions transitionGuards PAUSE None "t11" doneSys).1
    = inl (InvalidTransition PAUSE DONE)
  ∧ state (machine (runCalls transitions transitionGuards
                      [bare PAUSE "t11"; bare RESUME "t12"] doneSys))
    = SUBMITTING.
Proof.
  split.
  - apply reachable_runCalls. constructor.
  - vm_compute. repeat split.
Qed.

Lemma C4_witness :
  state (machine (runCalls transitions transitionGuards
                    [bare PAUSE "t03"; bare RESUME "t04"] searchingSys))
  = state (machine searchingSys)
  ∧ state (machine searchingSys) = SEARCHING.
Proof.
  split; [|reflexivity].
  refine (proj1 (proj2 (C4_pause_resume_round_trip transitions transitionGuards
            searchingSys None "t03" None "t04" _ _ _ _ _ _ _))).
  - reflexivity.
  - reflexivity.
  - apply reachable_runCalls. constructor.
  - reflexivity.
  - vm_compute. discriminate.
  - reflexivity.
  - reflexivity.
Defined.

(** *** Persist, then notify *)

(** A save that returns leaves the record, as JSON keeps it, for [load]. *)
Lemma save_then_load st r d d' :
  save st r d = (inr tt, d') -> loaded st d' = Some (JSON_stringify r).
Proof.
  unfold save, run_calls, save_calls, loaded, load, fs_readFile. cbn.
  eff_unfold. unfold fs_mkdir, fs_open_w, fs_finish.
  destruct (files d !! dirname (storagePath st)); [discriminate|]. cbn.
  destruct (decide _); [discriminate|]. cbn.
  intros [= <-]. cbn. rewrite lookup_insert_eq. reflexivity.
Qed.

Lemma transition_store table guards trigger payload now s :
  store (machine (transition table guards trigger payload now s).2)
  = store (machine s).
Proof.
  destruct (resolve_fixed table (machine s) trigger) as (Hst & _).
  destruct (transition_machine table guards trigger payload now s)
    as [->|(to & _ & _ & ->)]; cbn; exact Hst.
Qed.

Lemma transition_delivery table guards trigger payload now s :
  let out := transition table guards trigger payload now s in
  (out.1 ≠ inr tt -> delivered out.2 = delivered s)
  ∧ (out.1 = inr tt ->
     ∃ dl, delivered out.2 = (delivered s ++ [dl])%list
           ∧ seen dl = disk out.2
           ∧ event dl = mkEvent (state (machine s)) (state (machine out.2)) trigger
                                (runId (machine out.2)) now
           ∧ save (store (machine out.2)) (persistedOf (machine out.2) payload now)
                  (disk s) = (inr tt, seen dl)
           ∧ persistedBehind (store (machine out.2)) dl).
Proof.
  cbn zeta.
  pose proof (transition_cases table guards trigger payload now s) as Hc.
  cbn zeta in Hc.
  destruct (resolve table (machine s) trigger) as [m1 [to|]]; cbn in Hc.
  - destruct (guardAccepts guards to _).
    + destruct Hc as [(d & Hsave & ->)|(r & d & Hsave & ->)]; cbn.
      * split; [congruence|]. intros _.
        eexists. split; [reflexivity|]. cbn.
        repeat split; [exact Hsave|].
        exists (JSON_stringify (persistedOf (commit m1 trigger payload to) payload now)).
        split; [|split; reflexivity].
        eapply save_then_load. exact Hsave.
      * split; [reflexivity|discriminate].
    + rewrite Hc. cbn. split; [reflexivity|discriminate].
  - rewrite Hc. cbn. split; [reflexivity|discriminate].
Qed.

(** A machine created over the same store after a commit, once
    initialised, is where the first one was; its context is the committed
    one as JSON keeps it. *)
Lemma initialize_after_commit table guards trigger payload now s s' :
  transition table guards trigger payload now s = (inr tt, s') ->
  let restarted :=
    (initialize (mkSys (newMachine (store (machine s')) (runId (machine s')))
                       (disk s') [])).2 in
  state (machine restarted) = state (machine s')
  ∧ history (machine restarted) = history (machine s')
  ∧ attempt (machine restarted) = attempt (machine s')
  ∧ context (machine restarted) = jsonContext (context (machine s')).
Proof.
  intros Hok. cbn zeta.
  destruct (transition_delivery table guards trigger payload now s) as [_ Hyes].
  rewrite Hok in Hyes. cbn in Hyes.
  destruct (Hyes eq_refl) as (dl & _ & Hseen & _ & Hsave & _).
  rewrite Hseen in Hsave. apply save_then_load in Hsave.
  unfold initialize, storeLoad, this, onMachine. eff_unfold. cbn.
  rewrite Hsave. cbn. rewrite String.eqb_refl. cbn. auto.
Qed.

Lemma reachable_store_fixed table guards c s :
  store (machine (call table guards c s).2) = store (machine s).
Proof. unfold call. apply transition_store. Qed.

Lemma reachable_deliveries table guards s :
  reachable table guards s ->
  Forall (persistedBehind (store (machine s))) (delivered s).
Proof.
  induction 1 as [st id d|s c _ IH]; cbn.
  - constructor.
  - rewrite reachable_store_fixed. unfold call.
    destruct (transition_delivery table guards (c_trigger c) (c_payload c) (c_now c) s)
      as [Hno Hyes].
    set (out := transition table guards (c_trigger c) (c_payload c) (c_now c) s) in *.
    destruct (out.1) as [e|[]] eqn:Hout.
    + rewrite Hno by discriminate. exact IH.
    + destruct (Hyes eq_refl) as (dl & -> & _ & _ & _ & Hp).
      apply Forall_app. split; [exact IH|].
      constructor; [|constructor].
      unfold out in Hp. rewrite transition_store in Hp. exact Hp.
Qed.

(** C9.  A call that does not commit emits nothing.  A call that commits
    emits one event, after its save has returned: the subscriber finds the
    disk that save produced, and [load] on it returns a record whose
    [currentState] is the event's [to].  So it is for every event of a
    run. *)
Theorem C9_event_follows_save table guards :
  (∀ trigger payload now s,
     let out := transition table guards trigger payload now s in
     (out.1 ≠ inr tt -> delivered out.2 = delivered s)
     ∧ (out.1 = inr tt ->
        ∃ dl rec,
          delivered out.2 = (delivered s ++ [dl])%list
          ∧ ev_to (event dl) = state (machine out.2)
          ∧ save (store (machine out.2)) (persistedOf (machine out.2) payload now)
                 (disk s) = (inr tt, seen dl)
          ∧ loaded (store (machine out.2)) (seen dl) = Some rec
          ∧ currentState rec = ev_to (event dl)))
  ∧ (∀ s, reachable table guards s ->
       ∀ dl, dl ∈ delivered s ->
         ∃ rec, loaded (store (machine s)) (seen dl) = Some rec
                ∧ currentState rec = ev_to (event dl)).
Proof.
  split.
  - intros trigger payload now s. cbn zeta.
    destruct (transition_delivery table guards trigger payload now s) as [Hno Hyes].
    split; [exact Hno|].
    intros Hok. destruct (Hyes Hok) as (dl & Hd & _ & Hev & Hsave & rec & Hl & Hc & _).
    exists dl, rec. rewrite Hev at 1. cbn. auto.
  - intros s Hr dl Hin.
    pose proof (reachable_deliveries table guards s Hr) as Hall.
    rewrite Forall_forall in Hall.
    destruct (Hall dl Hin) as (rec & Hl & Hc & _). eauto.
Qed.

Lemma C9_witness :
  ∃ dl rec,
    delivered (transition transitions transitionGuards START None "t1" freshSys).2
    = [dl]
    ∧ ev_to (event dl) = ANALYZING
    ∧ loaded sampleStore (seen dl) = Some rec
    ∧ currentState rec = ANALYZING.
Proof.
  destruct (proj1 (C9_event_follows_save transitions transitionGuards)
              START None "t1" freshSys) as [_ H].
  destruct (H eq_refl) as (dl & rec & Hd & Hto & _ & Hl & Hc).
  exists dl, rec. rewrite Hc, Hto. auto.
Defined.

(** *** The store's write protocol *)

Lemma save_completed st r d d' :
  save st r d = (inr tt, d') ->
  files d' !! storagePath st = Some (Complete (JSON_stringify r)).
Proof.
  unfold save, run_calls, save_calls. cbn.
  eff_unfold. unfold fs_mkdir, fs_open_w, fs_finish.
  destruct (files d !! dirname (storagePath st)); [discriminate|]. cbn.
  destruct (decide _); [discriminate|]. cbn.
  intros [= <-]. cbn. apply lookup_insert_eq.
Qed.

Lemma loaded_files st d d' :
  files d' !! storagePath st = files d !! storagePath st ->
  loaded st d' = loaded st d.
Proof.
  unfold loaded, load, fs_readFile. eff_unfold. intros ->.
  destruct (files d !! storagePath st); reflexivity.
Qed.

Lemma midway_save st r d d' :
  d' ∈ midway (save_calls st r) d ->
  files d' = files d
  ∨ files d' = <[storagePath st := Partial (JSON_stringify r)]> (files d).
Proof.
  unfold midway, save_calls. cbn. unfold fs_mkdir, fs_open_w.
  destruct (files d !! dirname (storagePath st)); cbn; [intros H; inversion H|].
  destruct (decide _); cbn.
  - intros H. apply list_elem_of_singleton in H as ->. left. reflexivity.
  - intros H. apply elem_of_cons in H as [->|H]; [left; reflexivity|].
    apply list_elem_of_singleton in H as ->. right. reflexivity.
Qed.

Lemma tmp_is_another_path (p : string) : p ≠ (p ++ ".tmp")%string.
Proof. induction p as [|c p IH]; cbn; [discriminate|]. intros [= H]. auto. Qed.

(** The spec's protocol, temp file then rename, is atomic in this model:
    the yardstick is not out of reach. *)
Lemma save_calls_atomic_is_atomic st r d :
  atomicAt (storagePath st) (JSON_stringify r) (save_calls_atomic st r) d.
Proof.
  intros d'. unfold midway, save_calls_atomic. cbn.
  unfold fs_mkdir, fs_open_w, fs_finish.
  pose proof (tmp_is_another_path (storagePath st)) as Hne.
  destruct (files d !! dirname (storagePath st)); cbn; [intros H; inversion H|].
  destruct (decide _); cbn.
  - intros H. apply list_elem_of_singleton in H as ->. left. reflexivity.
  - intros H.
    repeat (apply elem_of_cons in H as [->|H];
            [left; cbn; rewrite ?lookup_insert_ne by auto; reflexivity|]).
    inversion H.
Qed.

(** C10, as the code has it.  [save] makes the parent directory and then
    writes the whole document to the storage path itself, with no temporary
    file and no rename.  Once it has returned, the file holds the complete
    record and [load] returns it.  While it runs, a reader finds the
    previous content or a partial document, and [load] then returns the
    previous record or none. *)
Theorem C10_save_writes_in_place st r d :
  save_calls st r
  = [Mkdir (dirname (storagePath st)); WriteFile (storagePath st) (JSON_stringify r)]
  ∧ (∀ d', save st r d = (inr tt, d') ->
       files d' !! storagePath st = Some (Complete (JSON_stringify r))
       ∧ loaded st d' = Some (JSON_stringify r))
  ∧ (∀ d', d' ∈ midway (save_calls st r) d ->
       (files d' !! storagePath st = files d !! storagePath st
        ∧ loaded st d' = loaded st d)
       ∨ (files d' !! storagePath st = Some (Partial (JSON_stringify r))
          ∧ loaded st d' = None)).
Proof.
  split; [reflexivity|]. split.
  - intros d' H. split; [eapply save_completed|eapply save_then_load]; exact H.
  - intros d' H. apply midway_save in H as [H|H].
    + left. rewrite H. split; [reflexivity|]. apply loaded_files. rewrite H.
      reflexivity.
    + right. rewrite H.
      assert (Hl : files d' !! storagePath st = Some (Partial (JSON_stringify r)))
        by (rewrite H; apply lookup_insert_eq).
      split; [apply lookup_insert_eq|].
      unfold loaded, load, fs_readFile. eff_unfold. rewrite Hl. reflexivity.
Qed.

(** The claim C10 fails on: [recordA] is on disk and [recordB] is being
    saved.  Between the two steps of the write the file holds a partial
    document, neither record, and [load] finds no record at all. *)
Lemma C10_counterexample :
  loaded sampleStore diskA = Some (JSON_stringify recordA)
  ∧ tornDisk ∈ midway (save_calls sampleStore recordB) diskA
  ∧ files tornDisk !! storagePath sampleStore = Some (Partial (JSON_stringify recordB))
  ∧ loaded sampleStore tornDisk = None
  ∧ ¬ atomicAt (storagePath sampleStore) (JSON_stringify recordB)
        (save_calls sampleStore recordB) diskA.
Proof.
  assert (Hin : tornDisk ∈ midway (save_calls sampleStore recordB) diskA).
  { vm_compute. apply elem_of_cons. right. apply elem_of_cons. left. reflexivity. }
  split; [vm_compute; reflexivity|]. split; [exact Hin|].
  split; [vm_compute; reflexivity|]. split; [vm_compute; reflexivity|].
  intros Hat. destruct (Hat tornDisk Hin) as [H|H]; vm_compute in H; discriminate H.
Qed.

Lemma C10_witness :
  loaded sampleStore diskA = Some (JSON_stringify recordA).
Proof.
  apply (C10_save_writes_in_place sampleStore recordA emptyDisk).
  vm_compute. reflexivity.
Defined.

(** *** Entry to [SEARCHING] *)

(** With the guard table of the second guards module, a transition that
    resolves to [SEARCHING] commits only over a context with a truthy
    [analysis], and is rejected by the guard when [analysis] is absent,
    whatever else the context holds. *)
Lemma analysis_guard_gates_searching table trigger payload now s :
  (resolve table (machine s) trigger).2 = Some SEARCHING ->
  let out := transition table transitionGuards_analysis trigger payload now s in
  let merged := spreadOpt (context (machine s)) (payloadContext payload) in
  (out.1 = inr tt -> truthy (prop merged "analysis") = true ∧ is_Some (merged !! "analysis"))
  ∧ (merged !! "analysis" = None -> out.1 = inl (GuardRejected SEARCHING)).
Proof.
  intros Hres. cbn zeta.
  pose proof (transition_cases table transitionGuards_analysis trigger payload now s) as Hc.
  cbn zeta in Hc. rewrite Hres in Hc.
  destruct (resolve_fixed table (machine s) trigger) as (_ & _ & _ & Hctx).
  rewrite Hctx in Hc. unfold guardAccepts in Hc. cbn in Hc.
  set (merged := spreadOpt (context (machine s)) (payloadContext payload)) in *.
  unfold prop in *.
  destruct (merged !! "analysis") as [v|] eqn:Hv; cbn in *.
  - split; [|discriminate]. intros Hok.
    destruct (truthy v); [eauto|]. rewrite Hc in Hok. discriminate.
  - rewrite Hc. cbn. split; [discriminate|reflexivity].
Qed.

(** C3.  Entry to [SEARCHING] requires an analysis.  With the guard table
    in force, whatever the transition map, the trigger and the context,
    a call whose destination is [SEARCHING] commits only when the merged
    context holds an [analysis], and a truthy one; when the [analysis]
    field is absent the call is rejected by the guard of [SEARCHING],
    whatever other fields, such as [query], the context holds, and the
    state, the context, the disk and the events are as before. *)
Theorem C3_searching_requires_analysis table trigger payload now s
    (Hto : (resolve table (machine s) trigger).2 = Some SEARCHING) :
  let out := transition table transitionGuards_analysis trigger payload now s in
  let merged := spreadOpt (context (machine s)) (payloadContext payload) in
  (out.1 = inr tt ->
   state (machine out.2) = SEARCHING
   ∧ is_Some (merged !! "analysis")
   ∧ truthy (prop merged "analysis") = true)
  ∧ (merged !! "analysis" = None ->
     out.1 = inl (GuardRejected SEARCHING)
     ∧ state (machine out.2) = state (machine s)
     ∧ context (machine out.2) = context (machine s)
     ∧ disk out.2 = disk s
     ∧ delivered out.2 = delivered s)
  ∧ (truthy (prop merged "analysis") = false ->
     out.1 = inl (GuardRejected SEARCHING)).
Proof.
  cbn zeta.
  pose proof (transition_cases table transitionGuards_analysis trigger payload now s) as Hc.
  cbn zeta in Hc. rewrite Hto in Hc.
  destruct (resolve_fixed table (machine s) trigger) as (_ & _ & Hst & Hctx).
  rewrite Hctx in Hc. unfold guardAccepts in Hc. cbn [transitionGuards_analysis] in Hc.
  set (merged := spreadOpt (context (machine s)) (payloadContext payload)) in *.
  assert (Habsent : merged !! "analysis" = None -> truthy (prop merged "analysis") = false).
  { intros H. unfold prop. rewrite H. reflexivity. }
  destruct (truthy (prop merged "analysis")) eqn:Htruthy.
  - split; [|split; [|discriminate]].
    + intros _. split; [|split; [|reflexivity]].
      * destruct Hc as [(d & _ & ->)|(r & d & _ & ->)]; reflexivity.
      * destruct (merged !! "analysis") eqn:Hm; [eauto|]. specialize (Habsent eq_refl).
        discriminate.
    + intros H. specialize (Habsent H). discriminate.
  - rewrite Hc. cbn. split; [discriminate|]. split; [|reflexivity].
    intros _. auto.
Qed.

Lemma C3_witness :
  let out := transition transitions transitionGuards_analysis ANALYSIS_OK
               (carrying queryOnly) "t02" analyzingSys in
  out.1 = inl (GuardRejected SEARCHING)
  ∧ state (machine out.2) = state (machine analyzingSys)
  ∧ context (machine out.2) = context (machine analyzingSys)
  ∧ disk out.2 = disk analyzingSys
  ∧ delivered out.2 = delivered analyzingSys.
Proof.
  cbn zeta.
  apply (C3_searching_requires_analysis transitions ANALYSIS_OK (carrying queryOnly) "t02"
           analyzingSys).
  - vm_compute. reflexivity.
  - vm_compute. reflexivity.
Defined.

(** The other copy of the guards module, the example guards of
    [src/orchestrator/guards.ts], tests keys that nothing in the pipeline
    produces.  Under it [ANALYSIS_OK] carrying a query and no analysis
    would commit, and the orchestrator, whose context has the keys of the
    workflow data, would end every successful [ANALYZING] stage in
    [ERROR]; with the table in force the same stage moves on to
    [SEARCHING]. *)
Lemma query_guard_would_block_the_pipeline :
  state (machine analyzingSys) = ANALYZING
  ∧ context (machine analyzingSys) = ∅
  ∧ queryOnly !! "analysis" = None
  ∧ (let out := transition transitions transitionGuards ANALYSIS_OK
                  (carrying queryOnly) "t02" analyzingSys in
     out.1 = inr tt ∧ state (machine out.2) = SEARCHING)
  ∧ (let out := transition transitions transitionGuards ANALYSIS_OK
                  (carrying analysisOnly) "t02" analyzingSys in
     out.1 = inl (GuardRejected SEARCHING) ∧ state (machine out.2) = ANALYZING)
  ∧ (let out := transition transitions transitionGuards_analysis ANALYSIS_OK
                  (carrying queryOnly) "t02" analyzingSys in
     out.1 = inl (GuardRejected SEARCHING))
  ∧ (let w := (executeState transitions transitionGuards analysing "t02" ANALYZING
                 analyzingWorld).2 in
     state (machine (sys w)) = ERROR
     ∧ lastError (orch w)
       = Some (mkClassification fatal "UNRECOVERABLE_ERROR"
                 "Transition to [SEARCHING] rejected by guard logic." None None))
  ∧ (let w := (executeState transitions transitionGuards_analysis analysing "t02"
                 ANALYZING analyzingWorld).2 in
     state (machine (sys w)) = SEARCHING ∧ lastError (orch w) = None).
Proof. vm_compute. repeat split. Qed.

(** *** Pattern matching of the recovery manager *)

(** The transient catalog is matched without regard to case. *)
Lemma isTransient_ignores_case msg :
  isTransient msg = matchesIgnoringCase transientPatterns msg.
Proof. reflexivity. Qed.

(** C6, at the failing input.  A message that differs from the fatal
    pattern [Authentication failed] only in the case of its first letter
    is not matched by [isFatal]; in a fix-cycle state it is classified
    retryable with a retry target, where the message in the pattern's own
    case is fatal. *)
Theorem C6_fatal_patterns_are_case_sensitive :
  toLowerCase "authentication failed" = toLowerCase "Authentication failed"
  ∧ matchesIgnoringCase fatalPatterns "authentication failed" = true
  ∧ isFatal "Authentication failed" = true
  ∧ isFatal "authentication failed" = false
  ∧ classify (ErrorObject "Authentication failed" None) GENERATING
    = mkClassification fatal "FATAL_ERROR" "Authentication failed" None None
  ∧ classify (ErrorObject "authentication failed" None) GENERATING
    = mkClassification retryable "RETRYABLE_ERROR" "authentication failed" None
                       (Some GENERATING)
  ∧ isTransient "Rate Limit exceeded" = true.
Proof. vm_compute. repeat split. Qed.

(** *** Retry targeting *)

Lemma classify_targets_fix_cycle e s :
  let c := classify e s in
  (retryTarget c = None ∨ retryTarget c = Some GENERATING)
  ∧ (is_Some (retryTarget c) ↔ severity c = retryable)
  ∧ (severity c = retryable -> s ∈ FIX_CYCLE_STATES).
Proof.
  cbn zeta. unfold classify.
  destruct (isFatal _);
    [|destruct (existsb (State_beq s) FIX_CYCLE_STATES) eqn:Hfix;
      [|destruct (isTransient _)]];
    cbn [retryTarget severity].
  2: { split; [auto|]. split; [split; eauto|]. intros _.
       destruct s; try discriminate Hfix; unfold FIX_CYCLE_STATES;
         repeat (first [apply list_elem_of_here | apply list_elem_of_further]). }
  all: split; [auto|]; split; [split; [intros [? ?]|]; discriminate|discriminate].
Qed.

Lemma fail_commits_to_error guards payload now s s' :
  transition transitions guards FAIL payload now s = (inr tt, s') ->
  state (machine s') = ERROR ∧ attempt (machine s') = attempt (machine s).
Proof.
  intros Hok.
  pose proof (transition_attempt transitions guards FAIL payload now s) as Ha.
  rewrite Hok in Ha. cbn in Ha. split; [|exact Ha].
  pose proof (transition_cases transitions guards FAIL payload now s) as Hc.
  cbn zeta in Hc. rewrite Hok in Hc.
  destruct s as [[st id cur h a ctx] d ev].
  destruct cur; cbn in Hc; try discriminate Hc;
    (destruct (guardAccepts guards _ _); [|discriminate Hc]);
    (destruct Hc as [(d' & _ & Hc)|(r & d' & _ & Hc)]; [|discriminate Hc]);
    injection Hc as ->; reflexivity.
Qed.

Lemma retry_from_error guards payload now s :
  guards GENERATING = None ->
  state (machine s) = ERROR ->
  let out := transition transitions guards RETRY payload now s in
  state (machine out.2) = GENERATING
  ∧ attempt (machine out.2) = attempt (machine s) + 1
  ∧ (out.1 = inr tt ∨ ∃ reason, out.1 = inl (StorageError reason)).
Proof.
  intros Hgen Hst. cbn zeta.
  pose proof (transition_cases transitions guards RETRY payload now s) as Hc.
  cbn zeta in Hc.
  destruct s as [[st id cur h a ctx] d ev]. cbn in Hst. subst cur.
  cbn in Hc. unfold guardAccepts in Hc. rewrite Hgen in Hc.
  destruct Hc as [(d' & _ & ->)|(r & d' & _ & ->)]; cbn; eauto.
Qed.

(** Why the transition map must have the [ERROR]/[RETRY] entry: without it
    [RETRY] falls back to the history, whose last checkpoint is the state
    that failed, and the handlers would not run as the retry tests of the
    orchestrator expect ([GENERATING] twice after one failure in
    [TESTING]). *)
Lemma retry_without_entry_reruns_the_failed_state :
  state (machine testingSys) = TESTING
  ∧ state (machine (runCalls forwardOnly transitionGuards
                      [bare FAIL "t08"; bare RETRY "t09"] testingSys)) = TESTING
  ∧ state (machine (runCalls transitions transitionGuards
                      [bare FAIL "t08"; bare RETRY "t09"] testingSys)) = GENERATING.
Proof. vm_compute. repeat split. Qed.

(** Neither shipped guard table, nor the empty one of the tests, guards
    [GENERATING], [IDLE] or [PAUSED]. *)
Lemma shipped_guards_are_open :
  ∀ guards, guards ∈ [transitionGuards; transitionGuards_analysis; noGuards] ->
  guards GENERATING = None ∧ guards IDLE = None ∧ guards PAUSED = None.
Proof.
  intros guards H.
  repeat (apply elem_of_cons in H as [->|H]; [repeat split|]).
  inversion H.
Qed.

Lemma tryCatch_returns {S E A} (c : Eff S E A) (h : E -> Eff S E A) w a w1 :
  tryCatch c h w = (inr a, w1) ->
  c w = (inr a, w1) ∨ ∃ e w', c w = (inl e, w') ∧ h e w' = (inr a, w1).
Proof.
  unfold tryCatch. destruct (c w) as [[e|a'] w']; intros H; [right|left]; eauto.
Qed.

Lemma onSys_orch {A} (c : M A) w : orch (onSys c w).2 = orch w.
Proof. unfold onSys. destruct (c (sys w)) as [[?|?] ?]; reflexivity. Qed.

Lemma serve_lastError r w : lastError (orch (serve r w).2) = lastError (orch w).
Proof. destruct r; reflexivity. Qed.

(** The [try] block of [executeState] does not touch [lastError]. *)
Lemma try_block_keeps_lastError table guards coordinator now s trigger w :
  let block : W unit :=
    o ← self;
    result ← execute coordinator s (data o);
    onOrch (setData (spread (data o) result));;
    o ← self;
    onSys (transition table guards trigger
             (Some (mkPayload (Some (workflowDataToContext (data o))) None)) now) in
  lastError (orch (block w).2) = lastError (orch w).
Proof.
  cbn zeta. unfold self, execute, onOrch. eff_unfold.
  destruct (coordinator s) as [handler|]; [|reflexivity].
  pose proof (serve_lastError (request (handler (data (orch w)))) w) as Hs.
  destruct (serve _ w) as [[e|[]] w'] eqn:Hserve; cbn in Hs; [exact Hs|].
  destruct (outcome _) as [e|partial]; [exact Hs|].
  cbn. rewrite onSys_orch. exact Hs.
Qed.

(** What [executeState] has done when it returns with an error recorded
    that was not there before: the [FAIL] transition has committed. *)
Lemma executeState_failed guards coordinator now s w w1 c :
  lastError (orch w) = None ->
  executeState transitions guards coordinator now s w = (inr tt, w1) ->
  lastError (orch w1) = Some c ->
  state (machine (sys w1)) = ERROR ∧ ∃ e, c = classify e s.
Proof.
  intros Hclean Hexec Hfailed. unfold executeState in Hexec.
  destruct (SUCCESS_TRIGGERS s) as [trigger|].
  2: { injection Hexec as <-. congruence. }
  apply tryCatch_returns in Hexec as [Hexec|(e & w' & _ & Hexec)].
  - pose proof (try_block_keeps_lastError transitions guards coordinator now s trigger w)
      as Hk.
    cbn zeta in Hk. rewrite Hexec in Hk. cbn in Hk. congruence.
  - unfold onOrch, self, onSys in Hexec. eff_unfold. cbn in Hexec.
    destruct (transition transitions guards FAIL _ now (sys w')) as [[t|[]] s1] eqn:Hfail;
      [discriminate|].
    injection Hexec as <-. cbn in *.
    split; [|exists e; congruence].
    eapply fail_commits_to_error. exact Hfail.
Qed.

Lemma attemptRecovery_retries guards now w c :
  guards GENERATING = None ->
  state (machine (sys w)) = ERROR ->
  lastError (orch w) = Some c ->
  shouldRetry (recovery (orch w)) (attempt (machine (sys w))) c = true ->
  let out := attemptRecovery transitions guards now w in
  state (machine (sys out.2)) = GENERATING
  ∧ attempt (machine (sys out.2)) = attempt (machine (sys w)) + 1
  ∧ (out.1 = inr true ∧ lastError (orch out.2) = None
     ∨ out.1 = inr false
       ∧ ∃ reason, (transition transitions guards RETRY None now (sys w)).1
                   = inl (StorageError reason)).
Proof.
  intros Hgen Hst Herr Hretry. cbn zeta.
  unfold attemptRecovery, self, onSys, onOrch, this. eff_unfold. cbn.
  rewrite Herr, Hretry. cbn.
  destruct (retry_from_error guards None now (sys w) Hgen Hst) as (Hs & Ha & Hr).
  destruct (transition transitions guards RETRY None now (sys w)) as [[t|[]] s1];
    cbn in *.
  - destruct Hr as [Hr|[reason Hr]]; [discriminate|]. eauto 10.
  - auto.
Qed.

(** C1.  When a handler fails in a fix-cycle state, [executeState] records
    the classification and takes the machine to [ERROR]; if [shouldRetry]
    then permits a retry, the [RETRY] transition that [attemptRecovery]
    issues takes the machine to [GENERATING], whichever state failed. *)
Theorem C1_retry_targets_generating guards coordinator now s w w1 c
    (Hgen : guards GENERATING = None)
    (Hstate : state (machine (sys w)) = s)
    (Hfix : s ∈ FIX_CYCLE_STATES)
    (Hclean : lastError (orch w) = None)
    (Hexec : executeState transitions guards coordinator now s w = (inr tt, w1))
    (Hfailed : lastError (orch w1) = Some c)
    (Hretry : shouldRetry (recovery (orch w1)) (attempt (machine (sys w1))) c = true) :
  state (machine (sys w1)) = ERROR
  ∧ retryTarget c = Some GENERATING
  ∧ (let out := transition transitions guards RETRY None now (sys w1) in
     state (machine out.2) = GENERATING
     ∧ (out.1 = inr tt ∨ ∃ reason, out.1 = inl (StorageError reason)))
  ∧ state (machine (sys (attemptRecovery transitions guards now w1).2)) = GENERATING.
Proof.
  destruct (executeState_failed guards coordinator now s w w1 c Hclean Hexec Hfailed)
    as (Herror & e & ->).
  split; [exact Herror|]. split.
  - destruct (classify_targets_fix_cycle e s) as ([Hn|Hg] & _ & _); [|exact Hg].
    unfold shouldRetry in Hretry. rewrite Hn in Hretry.
    destruct (ErrorSeverity_beq _ _); discriminate.
  - split.
    + destruct (retry_from_error guards None now (sys w1) Hgen Herror) as (H1 & _ & H2).
      cbn zeta. auto.
    + apply (attemptRecovery_retries guards now w1 _ Hgen Herror Hfailed Hretry).
Qed.

Lemma C1_witness :
  let w1 := (executeState transitions transitionGuards failingTests "t08" TESTING
               (testingWorld 3)).2 in
  state (machine (sys w1)) = ERROR
  ∧ state (machine (sys (attemptRecovery transitions transitionGuards "t08" w1).2))
    = GENERATING.
Proof.
  cbn zeta.
  pose proof (C1_retry_targets_generating transitionGuards failingTests "t08" TESTING
                (testingWorld 3)
                (executeState transitions transitionGuards failingTests "t08" TESTING
                   (testingWorld 3)).2
                (classify (ErrorObject "All tests failed" None) TESTING)) as H.
  destruct H as (H1 & _ & _ & H2).
  - reflexivity.
  - vm_compute. reflexivity.
  - unfold FIX_CYCLE_STATES.
    repeat (first [apply list_elem_of_here | apply list_elem_of_further]).
  - reflexivity.
  - vm_compute. reflexivity.
  - vm_compute. reflexivity.
  - vm_compute. reflexivity.
  - split; assumption.
Defined.

(** *** The retry decision *)

Lemma shouldRetry_iff r n c :
  shouldRetry r n c = true
  ↔ severity c ≠ fatal ∧ is_Some (retryTarget c) ∧ n < maxAttempts r.
Proof.
  unfold shouldRetry.
  destruct (severity c); cbn; destruct (retryTarget c); cbn;
    rewrite ?Z.ltb_lt; split; try discriminate; try tauto;
    try (intros (_ & [? ?] & _); discriminate);
    intros H; (split; [discriminate|split; [eauto|exact H]]).
Qed.

Lemma shouldRetry_one r n c :
  maxAttempts r = 1 -> 1 <= n -> shouldRetry r n c = false.
Proof.
  intros Hmax Hn. destruct (shouldRetry r n c) eqn:Hs; [|reflexivity].
  apply shouldRetry_iff in Hs as (_ & _ & Hlt). lia.
Qed.

Section Preserves.

Context {S E : Type} (R : S -> S -> Prop) `{!Reflexive R} `{!Transitive R}.

Lemma preserves_ret {A} (a : A) : preserves R (mret a : Eff S E A).
Proof. intros s. cbn. reflexivity. Qed.

Lemma preserves_throw {A} (e : E) : preserves R (throw e : Eff S E A).
Proof. intros s. cbn. reflexivity. Qed.

Lemma preserves_bind {A B} (c : Eff S E A) (k : A -> Eff S E B) :
  preserves R c -> (∀ a, preserves R (k a)) -> preserves R (c ≫= k).
Proof.
  intros Hc Hk s. eff_unfold. specialize (Hc s).
  destruct (c s) as [[e|a] s1]; cbn in *; [exact Hc|].
  etransitivity; [exact Hc|apply Hk].
Qed.

Lemma preserves_tryCatch {A} (c : Eff S E A) (h : E -> Eff S E A) :
  preserves R c -> (∀ e, preserves R (h e)) -> preserves R (tryCatch c h).
Proof.
  intros Hc Hh s. unfold tryCatch. specialize (Hc s).
  destruct (c s) as [[e|a] s1]; cbn in *; [|exact Hc].
  etransitivity; [exact Hc|apply Hh].
Qed.

End Preserves.

#[local] Instance sameRun_refl : Reflexive sameRun.
Proof. intros w. split; reflexivity. Qed.

#[local] Instance sameRun_trans : Transitive sameRun.
Proof. intros a b c [H1 H2] [H3 H4]. split; congruence. Qed.

Lemma sameRun_self : preserves sameRun self.
Proof. intros w. cbn. reflexivity. Qed.

Lemma sameRun_onOrch f :
  (∀ o, recovery (f o) = recovery o) -> preserves sameRun (onOrch f).
Proof. intros H w. split; [apply H|reflexivity]. Qed.

Lemma sameRun_transition table guards trigger payload ts :
  Trigger_beq trigger RETRY = false ->
  preserves sameRun (onSys (transition table guards trigger payload ts)).
Proof.
  intros Hno w. unfold onSys.
  pose proof (transition_attempt table guards trigger payload ts (sys w)) as Ha.
  rewrite Hno in Ha.
  destruct (transition _ _ _ _ _ _) as [[?|?] ?]; split; try reflexivity; exact Ha.
Qed.

Lemma sameRun_execute coordinator s d : preserves sameRun (execute coordinator s d).
Proof.
  unfold execute. destruct (coordinator s) as [handler|]; [|apply preserves_throw; apply _].
  apply preserves_bind; try apply _.
  - destruct (request _); [apply preserves_ret; apply _| |];
      apply sameRun_onOrch; reflexivity.
  - intros _. destruct (outcome _); [apply preserves_throw|apply preserves_ret]; apply _.
Qed.

(** [executeState] spends no attempt and leaves the retry budget alone. *)
Lemma executeState_keeps table guards coordinator ts s :
  preserves sameRun (executeState table guards coordinator ts s).
Proof.
  unfold executeState.
  destruct (SUCCESS_TRIGGERS s) as [trigger|] eqn:Htr; [|apply preserves_ret; apply _].
  assert (Hne : Trigger_beq trigger RETRY = false)
    by (destruct s; try discriminate Htr; injection Htr as <-; reflexivity).
  apply preserves_tryCatch; try apply _.
  - apply preserves_bind; try apply _; [apply sameRun_self|intros o].
    apply preserves_bind; try apply _; [apply sameRun_execute|intros result].
    apply preserves_bind; try apply _; [apply sameRun_onOrch; reflexivity|intros _].
    apply preserves_bind; try apply _; [apply sameRun_self|intros o'].
    apply sameRun_transition, Hne.
  - intros e.
    apply preserves_bind; try apply _; [apply sameRun_onOrch; reflexivity|intros _].
    apply preserves_bind; try apply _; [apply sameRun_self|intros o'].
    apply sameRun_transition. reflexivity.
Qed.

(** In [ERROR] with a budget of one attempt, the loop stops at once. *)
Lemma loop_stops_in_error table guards coordinator ts fuel w :
  state (machine (sys w)) = ERROR ->
  maxAttempts (recovery (orch w)) = 1 ->
  1 <= attempt (machine (sys w)) ->
  executeLoop table guards coordinator ts (S fuel) w
  = (inr (Some (mkResult failed ERROR (data (orch w)) (attempt (machine (sys w)))
                         (payloadOf <$> lastError (orch w)))), w).
Proof.
  intros Hst Hmax Hatt. destruct w as [o sy]. cbn in *.
  cbn [executeLoop]. unfold onSys, this, loopBody, attemptRecovery, buildResult, self.
  eff_unfold. cbn. rewrite Hst. cbn.
  destruct (lastError o) as [c|] eqn:Herr; cbn.
  - rewrite (shouldRetry_one _ _ c Hmax Hatt). cbn. rewrite Hst, Herr. reflexivity.
  - rewrite Hst, Herr. reflexivity.
Qed.

(** With a budget of one attempt, the first failure ends the run: the loop
    returns [failed] in [ERROR] with the attempt count it started with. *)
Lemma first_failure_ends_the_run guards coordinator ts fuel s w w1 c :
  state (machine (sys w)) = s ->
  is_Some (SUCCESS_TRIGGERS s) ->
  pauseRequested (orch w) = false ->
  cancelRequested (orch w) = false ->
  lastError (orch w) = None ->
  maxAttempts (recovery (orch w)) = 1 ->
  1 <= attempt (machine (sys w)) ->
  executeState transitions guards coordinator ts s w = (inr tt, w1) ->
  lastError (orch w1) = Some c ->
  executeLoop transitions guards coordinator ts (S (S fuel)) w
  = (inr (Some (mkResult failed ERROR (data (orch w1)) (attempt (machine (sys w)))
                         (Some (payloadOf c)))), w1).
Proof.
  intros Hst [trigger Htr] Hp Hc Hclean Hmax Hatt Hexec Hfailed.
  destruct (executeState_failed guards coordinator ts s w w1 c Hclean Hexec Hfailed)
    as (Herror & _).
  pose proof (executeState_keeps transitions guards coordinator ts s w) as [Hrec Ha].
  rewrite Hexec in Hrec, Ha. cbn in Hrec, Ha.
  pose proof (loop_stops_in_error transitions guards coordinator ts fuel w1 Herror) as Hloop.
  rewrite Hrec, Ha, Hfailed in Hloop. specialize (Hloop Hmax Hatt).
  cbn [fmap option_fmap option_map] in Hloop.
  remember (S fuel) as fuel' eqn:Hfuel.
  destruct w as [o sy]. cbn [orch sys] in *.
  assert (Hcont : shouldContinue s = true)
    by (destruct s; try discriminate Htr; reflexivity).
  assert (Hnot : State_beq s ERROR = false)
    by (destruct s; try discriminate Htr; reflexivity).
  cbn [executeLoop]. unfold onSys, this, loopBody, self.
  unfold mbind, mret, Eff_bind, Eff_ret. cbn [sys orch machine].
  rewrite Hst, Hcont, Hnot. cbn [sys orch machine].
  rewrite Hp, Hc, Hexec. exact Hloop.
Qed.

(** C7, as the code has it.  [shouldRetry] returns true exactly when the
    severity is not fatal (transient or retryable), a retry target is
    present and [attempt < maxAttempts]; on every classification that
    [classify] produces this is the case exactly when the severity is
    retryable and [attempt < maxAttempts].  With [maxAttempts = 1] it
    returns false for every attempt count from 1 on, which is every value
    the machine's counter takes; so the first failure of a handler ends the
    run in [ERROR]. *)
Theorem C7_retry_decision r n c :
  (shouldRetry r n c = true
   ↔ severity c ≠ fatal ∧ is_Some (retryTarget c) ∧ n < maxAttempts r)
  ∧ (∀ e s, shouldRetry r n (classify e s) = true
            ↔ severity (classify e s) = retryable ∧ n < maxAttempts r)
  ∧ (maxAttempts r = 1 -> 1 <= n -> shouldRetry r n c = false)
  ∧ (∀ table guards s, reachable table guards s -> 1 <= attempt (machine s))
  ∧ (∀ guards coordinator ts fuel s w w1 c1,
       state (machine (sys w)) = s ->
       is_Some (SUCCESS_TRIGGERS s) ->
       pauseRequested (orch w) = false ->
       cancelRequested (orch w) = false ->
       lastError (orch w) = None ->
       maxAttempts (recovery (orch w)) = 1 ->
       1 <= attempt (machine (sys w)) ->
       executeState transitions guards coordinator ts s w = (inr tt, w1) ->
       lastError (orch w1) = Some c1 ->
       executeLoop transitions guards coordinator ts (S (S fuel)) w
       = (inr (Some (mkResult failed ERROR (data (orch w1)) (attempt (machine (sys w)))
                              (Some (payloadOf c1)))), w1)).
Proof.
  split; [apply shouldRetry_iff|]. split; [|split; [|split]].
  - intros e s. rewrite shouldRetry_iff.
    destruct (classify_targets_fix_cycle e s) as (_ & Ht & _).
    split.
    + intros (_ & Hs & Hlt). split; [apply Ht, Hs|exact Hlt].
    + intros (Hs & Hlt). split; [rewrite Hs; discriminate|].
      split; [apply Ht, Hs|exact Hlt].
  - apply shouldRetry_one.
  - apply reachable_attempt.
  - intros. eapply first_failure_ends_the_run; eauto.
Qed.

(** The claim C7 fails on: a transient classification that carries a retry
    target is retried, and with [maxAttempts = 1] an attempt count of 0 is
    retried. *)
Lemma C7_counterexample :
  shouldRetry (mkRecovery 3) 1
    (mkClassification transient "TRANSIENT_ERROR" "rate limit" None (Some GENERATING))
  = true
  ∧ shouldRetry (mkRecovery 1) 0
      (mkClassification retryable "RETRYABLE_ERROR" "tests failed" None (Some GENERATING))
    = true.
Proof. split; reflexivity. Qed.

Lemma C7_witness :
  shouldRetry (mkRecovery 1) 1
    (mkClassification retryable "RETRYABLE_ERROR" "tests failed" None (Some GENERATING))
  = false
  ∧ (executeLoop transitions transitionGuards failingTests "t08" 2 (testingWorld 1)).1
    = inr (Some (mkResult failed ERROR readyContext 1
                   (Some (mkErrorPayload "RETRYABLE_ERROR" "All tests failed" None)))).
Proof.
  pose proof (C7_retry_decision (mkRecovery 1) 1
                (mkClassification retryable "RETRYABLE_ERROR" "tests failed" None
                                  (Some GENERATING))) as (_ & _ & H1 & _ & H2).
  split; [apply H1; [reflexivity|lia]|].
  erewrite (H2 transitionGuards failingTests "t08" 0%nat TESTING (testingWorld 1)
              (executeState transitions transitionGuards failingTests "t08" TESTING
                 (testingWorld 1)).2
              (classify (ErrorObject "All tests failed" None) TESTING)).
  - vm_compute. reflexivity.
  - vm_compute. reflexivity.
  - vm_compute. eauto.
  - reflexivity.
  - reflexivity.
  - reflexivity.
  - reflexivity.
  - vm_compute. discriminate.
  - vm_compute. reflexivity.
  - vm_compute. reflexivity.
Defined.

(** ** Further properties *)

(** *** Calls that are rejected *)

Lemma resolve_plain table m trigger :
  trigger ≠ RESUME -> trigger ≠ RETRY -> (resolve table m trigger).1 = m.
Proof. intros H1 H2. destruct trigger; try reflexivity; congruence. Qed.

(** X1.  A call on a trigger other than [RESUME] and [RETRY] that is
    rejected as an invalid transition or by a guard has changed nothing:
    not the machine, not the disk, not the events. *)
Theorem X1_rejected_call_leaves_no_trace table guards trigger payload now s e
    (Hresume : trigger ≠ RESUME)
    (Hretry : trigger ≠ RETRY)
    (Hrejected : (transition table guards trigger payload now s).1 = inl e)
    (Hnot_storage : ∀ reason, e ≠ StorageError reason) :
  (transition table guards trigger payload now s).2 = s.
Proof.
  pose proof (transition_cases table guards trigger payload now s) as Hc.
  cbn zeta in Hc. rewrite (resolve_plain table _ _ Hresume Hretry) in Hc.
  destruct s as [m d ev]. cbn in *.
  destruct (resolve table m trigger).2 as [to|].
  - destruct (guardAccepts guards to _).
    + destruct Hc as [(d' & _ & Hc)|(r & d' & _ & Hc)]; rewrite Hc in Hrejected;
        cbn in Hrejected; [discriminate|].
      injection Hrejected as <-. exfalso. eapply Hnot_storage. reflexivity.
    + rewrite Hc. reflexivity.
  - rewrite Hc. reflexivity.
Qed.

Lemma X1_witness :
  (transition transitions transitionGuards SEARCH_OK None "t1" freshSys).2 = freshSys.
Proof.
  apply (X1_rejected_call_leaves_no_trace transitions transitionGuards SEARCH_OK None
           "t1" freshSys (InvalidTransition SEARCH_OK IDLE)).
  - discriminate.
  - discriminate.
  - vm_compute. reflexivity.
  - discriminate.
Defined.

(** X2.  [RESUME] is never an invalid transition: from any state, terminal
    ones included, it resolves to the last checkpoint of the history, or to
    [IDLE] when the history is empty, and the checkpoint is popped even when
    the guard of that state then rejects the call. *)
Theorem X2_resume_pops_the_last_checkpoint table guards payload now s :
  let out := transition table guards RESUME payload now s in
  let to := default IDLE (last (history (machine s))) in
  history (machine out.2) = removelast (history (machine s))
  ∧ attempt (machine out.2) = attempt (machine s)
  ∧ (out.1 = inr tt ∧ state (machine out.2) = to
     ∨ (∃ reason, out.1 = inl (StorageError reason)) ∧ state (machine out.2) = to
     ∨ out.1 = inl (GuardRejected to) ∧ state (machine out.2) = state (machine s)
       ∧ guardAccepts guards to
           (spreadOpt (context (machine s)) (payloadContext payload)) = false).
Proof.
  cbn zeta.
  pose proof (transition_cases table guards RESUME payload now s) as Hc.
  destruct s as [[st id cur h a ctx] d ev]. cbn in Hc |- *.
  destruct (guardAccepts guards _ _) eqn:Hg.
  - destruct Hc as [(d' & _ & ->)|(r & d' & _ & ->)]; cbn.
    + destruct (isControl cur); cbn; auto.
    + destruct (isControl cur); cbn; eauto 10.
  - rewrite Hc. cbn. auto 10.
Qed.

(** *** Control triggers and terminal states *)

(** X3.  Whatever the transition map, in every state other than [DONE] and
    [CANCELLED] the triggers [PAUSE], [CANCEL] and [FAIL] lead to [PAUSED],
    [CANCELLED] and [ERROR]: the call is never an invalid transition, and
    unless the guard of the destination rejects it the machine is there
    afterwards.  In [DONE] and [CANCELLED] they are looked up in the map as
    any other trigger: every trigger but [RESUME] and [RETRY] for which the
    map has no entry there is rejected as an invalid transition and changes
    nothing. *)
Theorem X3_control_triggers table guards payload now s :
  (state (machine s) ≠ DONE -> state (machine s) ≠ CANCELLED ->
   ∀ trigger to, (trigger, to) ∈ [(PAUSE, PAUSED); (CANCEL, CANCELLED); (FAIL, ERROR)] ->
     let out := transition table guards trigger payload now s in
     out.1 = inl (GuardRejected to) ∧ out.2 = s
     ∨ (out.1 = inr tt ∨ ∃ reason, out.1 = inl (StorageError reason))
       ∧ state (machine out.2) = to)
  ∧ (state (machine s) = DONE ∨ state (machine s) = CANCELLED ->
     ∀ trigger, trigger ≠ RESUME -> trigger ≠ RETRY ->
       table (state (machine s)) trigger = None ->
       transition table guards trigger payload now s
       = (inl (InvalidTransition trigger (state (machine s))), s)).
Proof.
  split.
  - intros Hd Hc trigger to Hin. cbn zeta.
    pose proof (transition_cases table guards trigger payload now s) as H.
    destruct s as [[st id cur h a ctx] d ev]. cbn in Hd, Hc.
    assert (Hres : resolve table (mkMachine st id cur h a ctx) trigger
                   = (mkMachine st id cur h a ctx, Some to)).
    { repeat (apply elem_of_cons in Hin as [[= -> ->]|Hin];
              [destruct cur; try reflexivity; congruence|]).
      inversion Hin. }
    cbn zeta in H. cbn [machine] in H. rewrite Hres in H. cbn [fst snd] in H.
    destruct (guardAccepts guards to _).
    + right. destruct H as [(d' & _ & ->)|(r & d' & _ & ->)]; cbn; eauto.
    + left. rewrite H. auto.
  - intros Hterm trigger Hresume Hretry Hnone.
    pose proof (transition_cases table guards trigger payload now s) as H.
    destruct s as [[st id cur h a ctx] d ev]. cbn in Hterm, Hnone.
    destruct Hterm as [-> | ->]; destruct trigger; try congruence;
      cbn in H; rewrite Hnone in H; exact H.
Qed.

Lemma X3_witness :
  transition transitions transitionGuards CANCEL None "t11" doneSys
  = (inl (InvalidTransition CANCEL DONE), doneSys).
Proof.
  change DONE with (state (machine doneSys)) at 1.
  apply (X3_control_triggers transitions transitionGuards None "t11" doneSys).
  - left. reflexivity.
  - discriminate.
  - discriminate.
  - reflexivity.
Defined.

(** *** The context only grows *)

Lemma transition_context table guards trigger payload now s :
  let ctx' := context (machine (transition table guards trigger payload now s).2) in
  ctx' = context (machine s)
  ∨ ctx' = spreadOpt (context (machine s)) (payloadContext payload).
Proof.
  cbn zeta.
  destruct (resolve_fixed table (machine s) trigger) as (_ & _ & _ & Hctx).
  destruct (transition_machine table guards trigger payload now s)
    as [->|(to & _ & _ & ->)]; [left; exact Hctx|right].
  cbn. rewrite Hctx. reflexivity.
Qed.

Lemma spreadOpt_lookup (ctx : Context) payload k v :
  ctx !! k = Some v -> is_Some (spreadOpt ctx payload !! k).
Proof.
  intros H. destruct payload as [c|]; cbn; [|eauto].
  unfold spread. rewrite lookup_union. rewrite H.
  destruct (c !! k); cbn; eauto.
Qed.

(** X4.  No call removes a key from the machine's context, and a committed
    call that carries a context leaves the shallow merge: a carried key has
    the carried value, every other key the value it had. *)
Theorem X4_context_only_grows table guards :
  (∀ cs s k, is_Some (context (machine s) !! k) ->
             is_Some (context (machine (runCalls table guards cs s)) !! k))
  ∧ (∀ trigger c err now s s' k,
       transition table guards trigger (Some (mkPayload (Some c) err)) now s
       = (inr tt, s') ->
       context (machine s') !! k
       = match c !! k with
         | Some v => Some v
         | None => context (machine s) !! k
         end).
Proof.
  split.
  - induction cs as [|c cs IH]; intros s k Hk; cbn; [exact Hk|].
    apply IH. unfold call.
    destruct (transition_context table guards (c_trigger c) (c_payload c) (c_now c) s)
      as [-> | ->]; [exact Hk|].
    destruct Hk as [v Hv]. eapply spreadOpt_lookup. exact Hv.
  - intros trigger c err now s s' k Hok.
    pose proof (transition_cases table guards trigger (Some (mkPayload (Some c) err)) now s)
      as H.
    cbn zeta in H. rewrite Hok in H.
    destruct (resolve_fixed table (machine s) trigger) as (_ & _ & _ & Hctx).
    destruct (resolve table (machine s) trigger) as [m1 [to|]]; cbn in *;
      [|discriminate].
    destruct (guardAccepts guards to _); [|discriminate].
    destruct H as [(d' & _ & H)|(r & d' & _ & H)]; [|discriminate].
    injection H as ->. cbn. rewrite Hctx. unfold spread.
    rewrite lookup_union. destruct (c !! k), (context (machine s) !! k); reflexivity.
Qed.

(** *** Events and commits *)

Lemma transition_runId table guards trigger payload now s :
  runId (machine (transition table guards trigger payload now s).2)
  = runId (machine s).
Proof.
  destruct (resolve_fixed table (machine s) trigger) as (_ & Hid & _).
  destruct (transition_machine table guards trigger payload now s)
    as [->|(to & _ & _ & ->)]; cbn; exact Hid.
Qed.

(** X5.  The events delivered over a sequence of calls are those of the
    calls that committed, one each and in order; each reports the state
    before and after its call, the trigger, the run and the time of the
    call. *)
Theorem X5_events_are_the_commits table guards cs s :
  map event (delivered (runCalls table guards cs s))
  = (map event (delivered s) ++ committedEvents table guards cs s)%list.
Proof.
  revert s. induction cs as [|c cs IH]; intros s; cbn [runCalls committedEvents].
  - rewrite app_nil_r. reflexivity.
  - rewrite IH. rewrite app_assoc. f_equal.
    unfold call.
    destruct (transition_delivery table guards (c_trigger c) (c_payload c) (c_now c) s)
      as [Hno Hyes].
    pose proof (transition_runId table guards (c_trigger c) (c_payload c) (c_now c) s)
      as Hid.
    destruct (transition table guards (c_trigger c) (c_payload c) (c_now c) s)
      as [[e|[]] s1]; cbn in *.
    + rewrite Hno by discriminate. rewrite app_nil_r. reflexivity.
    + destruct (Hyes eq_refl) as (dl & Hd & _ & Hev & _).
      rewrite Hd, map_app. cbn. rewrite Hev, Hid. reflexivity.
Qed.

(** *** The stored record and a restart *)

Lemma jsonValue_clean : ∀ v, isJson v = true -> jsonValue v = v.
Proof.
  fix IH 1. intros [| | | | |items|fields]; cbn; try reflexivity; try discriminate.
  - intros H. f_equal.
    induction items as [|x xs IHxs]; cbn in *; [reflexivity|].
    apply andb_true_iff in H as [Hx Hxs]. rewrite (IHxs Hxs), (IH x Hx).
    destruct x; try reflexivity. discriminate Hx.
  - intros H. f_equal.
    induction fields as [|[k x] fs IHfs]; cbn in *; [reflexivity|].
    apply andb_true_iff in H as [Hx Hfs]. rewrite (IHfs Hfs), (IH x Hx).
    destruct x; try reflexivity. discriminate Hx.
Qed.

Lemma jsonValue_isJson : ∀ v, isUndefined v = false -> isJson (jsonValue v) = true.
Proof.
  fix IH 1. intros [| | | | |items|fields]; cbn; try reflexivity; try discriminate.
  - intros _.
    induction items as [|x xs IHxs]; cbn in *; [reflexivity|].
    rewrite IHxs, andb_true_r.
    destruct (isUndefined x) eqn:Hx; [reflexivity|]. apply IH, Hx.
  - intros _.
    induction fields as [|[k x] fs IHfs]; cbn in *; [reflexivity|].
    destruct (isUndefined x) eqn:Hx; [exact IHfs|].
    cbn. rewrite IHfs, andb_true_r. apply IH, Hx.
Qed.

Lemma jsonContext_lookup (ctx : Context) k :
  jsonContext ctx !! k
  = match ctx !! k with
    | Some v => if isUndefined v then None else Some (jsonValue v)
    | None => None
    end.
Proof.
  unfold jsonContext. rewrite lookup_fmap, map_lookup_filter.
  destruct (ctx !! k) as [v|]; cbn; [|reflexivity].
  destruct (isUndefined v) eqn:Hv; cbn.
  - rewrite option_guard_False; [reflexivity|]. cbn. congruence.
  - rewrite option_guard_True; [reflexivity|]. cbn. congruence.
Qed.

Lemma jsonContext_isJson (ctx : Context) k v :
  jsonContext ctx !! k = Some v -> isJson v = true.
Proof.
  rewrite jsonContext_lookup. destruct (ctx !! k) as [x|]; [|discriminate].
  destruct (isUndefined x) eqn:Hx; [discriminate|].
  intros [= <-]. apply jsonValue_isJson, Hx.
Qed.

Lemma jsonContext_clean (ctx : Context) :
  (∀ k v, ctx !! k = Some v -> isJson v = true) -> jsonContext ctx = ctx.
Proof.
  intros H. apply map_eq. intros k. rewrite jsonContext_lookup.
  destruct (ctx !! k) as [v|] eqn:Hk; [|reflexivity].
  pose proof (H k v Hk) as Hv. rewrite (jsonValue_clean v Hv).
  destruct v; try reflexivity. discriminate Hv.
Qed.

Lemma committed_record table guards trigger payload now s s' :
  transition table guards trigger payload now s = (inr tt, s') ->
  loaded (store (machine s')) (disk s')
  = Some (JSON_stringify (persistedOf (machine s') payload now)).
Proof.
  intros Hok.
  destruct (transition_delivery table guards trigger payload now s) as [_ Hyes].
  rewrite Hok in Hyes. cbn in Hyes.
  destruct (Hyes eq_refl) as (dl & _ & Hseen & _ & Hsave & _).
  rewrite Hseen in Hsave. eapply save_then_load, Hsave.
Qed.

(** X6.  After a committed call the store holds the machine: the record
    that [load] returns has the machine's run, state, attempt and history,
    the time of the call, the context as JSON keeps it, and the error the
    call carried, so that a commit carrying no error erases the error of
    an earlier [FAIL] from the store. *)
Theorem X6_store_mirrors_the_machine table guards trigger payload now s s'
    (Hcommit : transition table guards trigger payload now s = (inr tt, s')) :
  loaded (store (machine s')) (disk s')
  = Some (mkPersisted (runId (machine s')) (state (machine s')) now
            (attempt (machine s')) (jsonContext (context (machine s')))
            (payloadError payload) (history (machine s'))).
Proof. apply (committed_record _ _ _ _ _ _ _ Hcommit). Qed.

Lemma X6_witness :
  let failed_ := (transition transitions transitionGuards FAIL
                    (Some (mkPayload None (Some (mkErrorPayload "E" "boom" None))))
                    "t1" freshSys).2 in
  let retried := (transition transitions transitionGuards RETRY None "t2" failed_).2 in
  loaded (store (machine retried)) (disk retried)
  = Some (mkPersisted (runId (machine retried)) (state (machine retried)) "t2"
            (attempt (machine retried)) (jsonContext (context (machine retried)))
            None (history (machine retried)))
  ∧ p_error <$> loaded sampleStore (disk failed_)
    = Some (Some (mkErrorPayload "E" "boom" None)).
Proof.
  cbn zeta. split.
  - apply (X6_store_mirrors_the_machine transitions transitionGuards RETRY None "t2"
             (transition transitions transitionGuards FAIL
                (Some (mkPayload None (Some (mkErrorPayload "E" "boom" None))))
                "t1" freshSys).2).
    vm_compute. reflexivity.
  - vm_compute. reflexivity.
Defined.

(** X7.  The persistence round trip.  A machine created over the same
    store and run after a committed call and initialised is in the state,
    history and attempt of the first one; its context is the committed one
    as JSON keeps it, which holds no [undefined] any more, and is the
    committed one itself when that held none. *)
Theorem X7_initialize_restores_the_commit table guards trigger payload now s s'
    (Hcommit : transition table guards trigger payload now s = (inr tt, s')) :
  let restarted :=
    (initialize (mkSys (newMachine (store (machine s')) (runId (machine s')))
                       (disk s') [])) in
  restarted.1 = inr tt
  ∧ disk restarted.2 = disk s'
  ∧ state (machine restarted.2) = state (machine s')
  ∧ history (machine restarted.2) = history (machine s')
  ∧ attempt (machine restarted.2) = attempt (machine s')
  ∧ context (machine restarted.2) = jsonContext (context (machine s'))
  ∧ (∀ k v, context (machine restarted.2) !! k = Some v -> isJson v = true)
  ∧ ((∀ k v, context (machine s') !! k = Some v -> isJson v = true) ->
     machine restarted.2 = machine s').
Proof.
  cbn zeta. pose proof (committed_record _ _ _ _ _ _ _ Hcommit) as Hl.
  unfold initialize, storeLoad, this, onMachine. eff_unfold. cbn.
  rewrite Hl. cbn. rewrite String.eqb_refl. cbn.
  repeat split.
  - intros k v. apply jsonContext_isJson.
  - intros Hclean. rewrite (jsonContext_clean _ Hclean).
    destruct (machine s'). reflexivity.
Qed.

Lemma X7_witness :
  machine (initialize (mkSys (newMachine sampleStore "run-1") (disk planningSys) [])).2
  = machine planningSys.
Proof.
  pose proof (X7_initialize_restores_the_commit transitions transitionGuards
                SEARCH_OK (carrying readyContext) "t03" searchingSys planningSys)
    as H.
  cbn zeta in H.
  destruct H as (_ & _ & _ & _ & _ & _ & _ & H).
  - vm_compute. reflexivity.
  - apply H.
    change (map_Forall (fun _ v => isJson v = true) (context (machine planningSys))).
    apply (bool_decide_unpack _). vm_compute. exact I.
Defined.

(** X8.  [initialize] never rejects and never writes.  When the file is
    missing, holds a partial document, or holds the record of another run,
    the machine is left as it was. *)
Theorem X8_initialize_ignores_what_is_not_its_record m d ev :
  let out := initialize (mkSys m d ev) in
  out.1 = inr tt
  ∧ disk out.2 = d ∧ delivered out.2 = ev
  ∧ store (machine out.2) = store m ∧ runId (machine out.2) = runId m
  ∧ (files d !! storagePath (store m) = None -> machine out.2 = m)
  ∧ (∀ doc, files d !! storagePath (store m) = Some (Partial doc) -> machine out.2 = m)
  ∧ (∀ doc, files d !! storagePath (store m) = Some (Complete doc) ->
            p_runId doc ≠ runId m -> machine out.2 = m).
Proof.
  cbn zeta. unfold initialize, storeLoad, this, onMachine, loaded, load, fs_readFile.
  eff_unfold. cbn.
  destruct (files d !! storagePath (store m)) as [[doc|doc]|] eqn:Hf; cbn.
  - destruct (String.eqb (p_runId doc) (runId m)) eqn:He; cbn.
    + repeat split; try discriminate. intros doc' [= <-] Hne.
      apply String.eqb_eq in He. contradiction.
    + repeat split; discriminate.
  - repeat split; discriminate.
  - repeat split; discriminate.
Qed.

(** *** Guarded states *)

(** X9.  With either shipped guard table, a machine is never in
    [PLANNING] without a non-empty array of search results in its context,
    and [SEARCH_OK], where the map sends it from [SEARCHING] to
    [PLANNING], is rejected by the guard and changes nothing when the
    merged context has none.  In [SEARCHING] the context has a truthy
    [analysis] with the table of the second guards module, and a truthy
    [query] or [analysisResults] with the table of [guards.ts]. *)
Theorem X9_guarded_states_hold_their_data :
  (∀ table guards s,
     guards ∈ [transitionGuards; transitionGuards_analysis] ->
     reachable table guards s ->
     state (machine s) = PLANNING ->
     isNonEmptyArray (prop (context (machine s)) "searchResults") = true)
  ∧ (∀ table s,
       reachable table transitionGuards_analysis s ->
       state (machine s) = SEARCHING ->
       truthy (prop (context (machine s)) "analysis") = true)
  ∧ (∀ table s,
       reachable table transitionGuards s ->
       state (machine s) = SEARCHING ->
       truthy (prop (context (machine s)) "query")
       || truthy (prop (context (machine s)) "analysisResults") = true)
  ∧ (∀ table guards payload now s,
       guards ∈ [transitionGuards; transitionGuards_analysis] ->
       state (machine s) = SEARCHING ->
       table SEARCHING SEARCH_OK = Some PLANNING ->
       isNonEmptyArray
         (prop (spreadOpt (context (machine s)) (payloadContext payload))
               "searchResults") = false ->
       transition table guards SEARCH_OK payload now s
       = (inl (GuardRejected PLANNING), s)).
Proof.
  split; [|split; [|split]].
  - intros table guards s Hin Hr Hst.
    assert (Hidle : guards IDLE = None).
    { repeat (apply elem_of_cons in Hin as [->|Hin]; [reflexivity|]). inversion Hin. }
    pose proof (reachable_guard table guards s Hidle Hr) as Hg.
    rewrite Hst in Hg.
    repeat (apply elem_of_cons in Hin as [->|Hin]; [exact Hg|]). inversion Hin.
  - intros table s Hr Hst.
    pose proof (reachable_guard table _ s eq_refl Hr) as Hg.
    rewrite Hst in Hg. exact Hg.
  - intros table s Hr Hst.
    pose proof (reachable_guard table _ s eq_refl Hr) as Hg.
    rewrite Hst in Hg. exact Hg.
  - intros table guards payload now s Hin Hst Hentry Hno.
    pose proof (transition_cases table guards SEARCH_OK payload now s) as H.
    destruct s as [[st id cur h a ctx] d ev]. cbn in Hst, Hno. subst cur.
    cbn in H. rewrite Hentry in H. cbn in H.
    assert (Hg : guardAccepts guards PLANNING (spreadOpt ctx (payloadContext payload))
                 = false).
    { repeat (apply elem_of_cons in Hin as [->|Hin]; [exact Hno|]). inversion Hin. }
    rewrite Hg in H. exact H.
Qed.

(** *** Pattern matching *)

Lemma append_cons c (a b : string) : (String c a ++ b = String c (a ++ b))%string.
Proof. reflexivity. Qed.

Lemma append_nil (b : string) : ("" ++ b = b)%string.
Proof. reflexivity. Qed.

Lemma prefix_app p s : String.prefix p s = true ↔ ∃ r, s = (p ++ r)%string.
Proof.
  revert s. induction p as [|c p IH]; intros s.
  - split; [eauto|]. intros _. destruct s; reflexivity.
  - destruct s as [|c' s]; [split; [discriminate|intros [r Hr]; discriminate]|].
    cbn. destruct (Ascii.ascii_dec c c') as [->|Hne].
    + fold (String.prefix p s). rewrite IH. split; intros [r Hr]; exists r; rewrite append_cons in *; congruence.
    + split; [discriminate|]. intros [r Hr]. rewrite append_cons in Hr. congruence.
Qed.

(** [includes] is the substring test. *)
Lemma includes_substring s p :
  includes s p = true ↔ ∃ a b, s = (a ++ p ++ b)%string.
Proof.
  induction s as [|c s IH].
  - change (includes "" p) with (String.prefix p "" || false).
    rewrite orb_false_r, prefix_app. split.
    + intros [r Hr]. exists "", r. exact Hr.
    + intros (a & b & H). destruct a; [eauto|discriminate].
  - change (includes (String c s) p)
      with (String.prefix p (String c s) || includes s p).
    rewrite orb_true_iff, prefix_app, IH. split.
    + intros [[r Hr]|(a & b & H)].
      * exists "", r. exact Hr.
      * exists (String c a), b. rewrite append_cons. congruence.
    + intros (a & b & H). destruct a as [|c' a].
      * left. eauto.
      * right. rewrite append_cons in H. injection H as _ H. eauto.
Qed.

Lemma append_assoc (a b c : string) : ((a ++ b) ++ c = a ++ (b ++ c))%string.
Proof. induction a as [|x a IH]; rewrite ?append_cons, ?append_nil; congruence. Qed.

Lemma includes_wrapped s p a b :
  includes s p = true -> includes (a ++ s ++ b) p = true.
Proof.
  rewrite !includes_substring. intros (x & y & ->).
  exists (a ++ x)%string, (y ++ b)%string. rewrite !append_assoc. reflexivity.
Qed.

Lemma toLowerCase_app a b :
  toLowerCase (a ++ b) = (toLowerCase a ++ toLowerCase b)%string.
Proof.
  induction a as [|c a IH]; rewrite ?append_cons, ?append_nil; cbn;
    rewrite ?append_cons, ?append_nil; congruence.
Qed.

Lemma existsb_elem {A} (f : A -> bool) (l : list A) :
  existsb f l = true ↔ ∃ x, x ∈ l ∧ f x = true.
Proof.
  rewrite existsb_exists. split; intros (x & Hx & Hf); exists x; split; auto;
    apply list_elem_of_In; exact Hx.
Qed.

(** X10.  [isFatal] holds exactly of the messages that contain one of the
    five fatal patterns verbatim; so a fatal message stays fatal whatever is
    put before or after it, as when an error is wrapped. *)
Theorem X10_isFatal_is_containment :
  (∀ msg, isFatal msg = true
          ↔ ∃ p a b, p ∈ fatalPatterns ∧ msg = (a ++ p ++ b)%string)
  ∧ (∀ msg a b, isFatal msg = true -> isFatal (a ++ msg ++ b) = true).
Proof.
  split.
  - intros msg. unfold isFatal. rewrite existsb_elem. split.
    + intros (p & Hp & Hi). apply includes_substring in Hi as (a & b & ->). eauto.
    + intros (p & a & b & Hp & ->). exists p. split; [exact Hp|].
      apply includes_substring. eauto.
  - intros msg a b. unfold isFatal. rewrite !existsb_elem.
    intros (p & Hp & Hi). exists p. split; [exact Hp|]. apply includes_wrapped, Hi.
Qed.

(** X11.  [isTransient] depends on the message only up to the case of its
    ASCII letters, holds exactly when the lower-cased message contains a
    lower-cased transient pattern, and survives wrapping. *)
Theorem X11_isTransient_ignores_case_and_wrapping :
  (∀ msg, isTransient msg = true
          ↔ ∃ p a b, p ∈ transientPatterns
                     ∧ toLowerCase msg = (a ++ toLowerCase p ++ b)%string)
  ∧ (∀ m1 m2, toLowerCase m1 = toLowerCase m2 -> isTransient m1 = isTransient m2)
  ∧ (∀ msg, isTransient (toLowerCase msg) = isTransient msg)
  ∧ (∀ msg a b, isTransient msg = true -> isTransient (a ++ msg ++ b) = true).
Proof.
  assert (Hidem : ∀ s, toLowerCase (toLowerCase s) = toLowerCase s).
  { induction s as [|c s IH]; cbn; [reflexivity|]. f_equal; [|exact IH].
    destruct c as [[] [] [] [] [] [] [] []]; reflexivity. }
  split; [|split; [|split]].
  - intros msg. unfold isTransient. rewrite existsb_elem. split.
    + intros (p & Hp & Hi). apply includes_substring in Hi as (a & b & Hi). eauto.
    + intros (p & a & b & Hp & Hi). exists p. split; [exact Hp|].
      apply includes_substring. eauto.
  - intros m1 m2 H. unfold isTransient. rewrite H. reflexivity.
  - intros msg. unfold isTransient. rewrite Hidem. reflexivity.
  - intros msg a b. unfold isTransient. rewrite !existsb_elem.
    intros (p & Hp & Hi). exists p. split; [exact Hp|].
    rewrite !toLowerCase_app. apply includes_wrapped, Hi.
Qed.

(** *** The retry policy *)

Lemma fix_cycle_elem s :
  existsb (State_beq s) FIX_CYCLE_STATES = true ↔ s ∈ FIX_CYCLE_STATES.
Proof.
  split.
  - intros H. destruct s; try discriminate H; unfold FIX_CYCLE_STATES;
      repeat (first [apply list_elem_of_here | apply list_elem_of_further]).
  - intros H. unfold FIX_CYCLE_STATES in H.
    repeat (apply elem_of_cons in H as [->|H]; [reflexivity|]). inversion H.
Qed.

(** X12.  A failure is retried exactly when it happened in a fix-cycle
    state, its message contains no fatal pattern and the attempt count is
    below the budget; the retry target is then [GENERATING].  Whatever its
    message, a failure in [ANALYZING], [SEARCHING], [PLANNING] or
    [SUBMITTING] is never retried, and a fatal message is not retried in
    the fix cycle either.  The classification keeps the message. *)
Theorem X12_what_is_retried r n e s :
  let c := classify e s in
  message c = match e with ErrorObject m _ => m | NotAnError m => m end
  ∧ (shouldRetry r n c = true
     ↔ s ∈ FIX_CYCLE_STATES ∧ isFatal (message c) = false ∧ n < maxAttempts r)
  ∧ (shouldRetry r n c = true -> retryTarget c = Some GENERATING)
  ∧ (isFatal (message c) = true -> severity c = fatal ∧ code c = "FATAL_ERROR")
  ∧ (s ∉ FIX_CYCLE_STATES -> retryTarget c = None).
Proof.
  cbn zeta.
  assert (Hm : message (classify e s)
               = match e with ErrorObject m _ => m | NotAnError m => m end).
  { unfold classify. destruct (isFatal _); [reflexivity|].
    destruct (existsb _ _); [reflexivity|]. destruct (isTransient _); reflexivity. }
  split; [exact Hm|]. rewrite Hm.
  set (msg := match e with ErrorObject m _ => m | NotAnError m => m end).
  rewrite <- fix_cycle_elem.
  unfold classify, shouldRetry. fold msg.
  destruct (isFatal msg) eqn:Hf;
    [|destruct (existsb (State_beq s) FIX_CYCLE_STATES) eqn:Hfix;
      [|destruct (isTransient msg)]];
    cbn; rewrite ?Z.ltb_lt; repeat split;
    try discriminate; try tauto; try congruence;
    try (intros (? & ? & ?); first [discriminate | assumption]).
Qed.

(** *** The coordinator *)

(** X13.  A state without a registered handler fails with a message that
    contains the fatal pattern [No handler registered]: [execute] changes
    nothing, and the failure is classified [FATAL_ERROR] and never retried,
    in whatever state it is classified and whatever the budget. *)
Theorem X13_missing_handler_is_fatal coordinator s d w
    (Hmissing : coordinator s = None) :
  let e := ErrorObject ("No handler registered for state: " ++ stateName s)%string None in
  execute coordinator s d w = (inl e, w)
  ∧ ∀ s' r n,
      severity (classify e s') = fatal
      ∧ code (classify e s') = "FATAL_ERROR"
      ∧ shouldRetry r n (classify e s') = false.
Proof.
  cbn zeta. split.
  - unfold execute. rewrite Hmissing. reflexivity.
  - intros s' r n.
    assert (Hf : isFatal ("No handler registered for state: " ++ stateName s) = true).
    { unfold isFatal. apply existsb_elem. exists "No handler registered". split.
      - unfold fatalPatterns.
        repeat (first [apply list_elem_of_here | apply list_elem_of_further]).
      - apply includes_substring. exists "", (" for state: " ++ stateName s)%string.
        reflexivity. }
    unfold classify, shouldRetry. rewrite Hf. cbn. auto.
Qed.

Lemma X13_witness :
  let e := ErrorObject "No handler registered for state: BUILDING" None in
  execute (coordinatorOf noHandlers) BUILDING ∅ analyzingWorld = (inl e, analyzingWorld)
  ∧ ∀ s' r n,
      severity (classify e s') = fatal
      ∧ code (classify e s') = "FATAL_ERROR"
      ∧ shouldRetry r n (classify e s') = false.
Proof.
  apply (X13_missing_handler_is_fatal (coordinatorOf noHandlers) BUILDING ∅ analyzingWorld).
  reflexivity.
Defined.

Lemma State_beq_eq (a b : State) : State_beq a b = true ↔ a = b.
Proof. split; [|intros ->; destruct b; reflexivity]. destruct a, b; (reflexivity || discriminate). Qed.

Lemma State_beq_neq (a b : State) : State_beq a b = false ↔ a ≠ b.
Proof.
  rewrite <- State_beq_eq. destruct (State_beq a b); split; congruence.
Qed.

Lemma handlerOf_registerHandler s h m s' :
  handlerOf (registerHandler s h m) s'
  = if State_beq s s' then Some h else handlerOf m s'.
Proof.
  induction m as [|[k h0] m IH]; cbn.
  - reflexivity.
  - destruct (State_beq k s) eqn:Hks; cbn.
    + apply State_beq_eq in Hks as ->. destruct (State_beq s s'); reflexivity.
    + destruct (State_beq k s') eqn:Hks'; [|exact IH].
      apply State_beq_eq in Hks' as ->. rewrite (proj2 (State_beq_neq s s')); [reflexivity|].
      apply State_beq_neq in Hks. congruence.
Qed.

Lemma hasHandler_registered m s :
  hasHandler m s = true ↔ s ∈ getRegisteredStates m.
Proof.
  unfold hasHandler, getRegisteredStates.
  induction m as [|[k h0] m IH]; cbn.
  - split; [discriminate|]. intros H. inversion H.
  - rewrite elem_of_cons. destruct (State_beq k s) eqn:Hks.
    + apply State_beq_eq in Hks. split; auto.
    + apply State_beq_neq in Hks. rewrite IH. split; [auto|]. intros [?|?]; congruence.
Qed.

Lemma registered_after s h m :
  getRegisteredStates (registerHandler s h m)
  = if hasHandler m s then getRegisteredStates m
    else (getRegisteredStates m ++ [s])%list.
Proof.
  unfold hasHandler, getRegisteredStates.
  induction m as [|[k h0] m IH]; cbn.
  - reflexivity.
  - destruct (State_beq k s) eqn:Hks; cbn; [reflexivity|].
    rewrite IH. destruct (handlerOf m s); reflexivity.
Qed.

(** X14.  The registry behaves as the [Map] it is.  After
    [registerHandler s h] the handler of [s] is [h] and every other state
    keeps its own; a state that was registered keeps its place in
    [getRegisteredStates] and a new one goes to the end; [hasHandler] tells
    exactly the states of [getRegisteredStates]; and however the registry
    was filled, no state is listed twice. *)
Theorem X14_registry_is_a_map :
  (∀ s h m s',
     handlerOf (registerHandler s h m) s'
     = if State_beq s s' then Some h else handlerOf m s')
  ∧ (∀ s h m,
       getRegisteredStates (registerHandler s h m)
       = if hasHandler m s then getRegisteredStates m
         else (getRegisteredStates m ++ [s])%list)
  ∧ (∀ m s, hasHandler m s = true ↔ s ∈ getRegisteredStates m)
  ∧ (∀ regs : list (State * StateHandler),
       NoDup (getRegisteredStates
                (foldl (fun m r => registerHandler r.1 r.2 m) noHandlers regs))).
Proof.
  split; [exact handlerOf_registerHandler|].
  split; [exact registered_after|].
  split; [exact hasHandler_registered|].
  intros regs.
  assert (H : ∀ m, NoDup (getRegisteredStates m) ->
                   NoDup (getRegisteredStates
                            (foldl (fun m r => registerHandler r.1 r.2 m) m regs))).
  { induction regs as [|[s h] regs IH]; intros m Hm; cbn; [exact Hm|].
    apply IH. rewrite registered_after.
    destruct (hasHandler m s) eqn:Hh; [exact Hm|].
    apply NoDup_app. split; [exact Hm|]. split; [|apply NoDup_singleton].
    intros x Hx Hs. apply list_elem_of_singleton in Hs as ->.
    apply hasHandler_registered in Hx. congruence. }
  apply H. constructor.
Qed.

(** *** The store *)

(** X15.  [load] never rejects and never writes.  It returns a record
    exactly when the file holds a complete document, and [null] when the
    file is missing or holds a truncated one; in the second case [exists]
    is true while [load] has nothing to return. *)
Theorem X15_load_never_rejects st d :
  load st d = (inr (loaded st d), d)
  ∧ (∀ doc, loaded st d = Some doc
            ↔ files d !! storagePath st = Some (Complete doc))
  ∧ (loaded st d = None
     ↔ files d !! storagePath st = None
       ∨ ∃ doc, files d !! storagePath st = Some (Partial doc))
  ∧ (is_Some (files d !! storagePath st) -> exists_ st d = (inr true, d)).
Proof.
  unfold loaded, load, exists_, fs_readFile. eff_unfold.
  destruct (files d !! storagePath st) as [[doc|doc]|] eqn:Hf; cbn;
    (split; [reflexivity|split; [|split]]).
  - intros doc'. split; congruence.
  - split; [discriminate|]. intros [H|[? H]]; discriminate H.
  - intros _. reflexivity.
  - intros doc'. split; discriminate.
  - split; eauto.
  - intros _. reflexivity.
  - intros doc'. split; discriminate.
  - split; eauto.
  - intros [? H]. discriminate H.
Qed.

Lemma save_returns st r d d' :
  save st r d = (inr tt, d')
  ↔ writable st d
    ∧ d' = mkDisk (<[storagePath st := Complete (JSON_stringify r)]> (files d))
                  ({[dirname (storagePath st)]} ∪ dirs d).
Proof.
  unfold writable, save, run_calls, save_calls. cbn.
  eff_unfold. unfold fs_mkdir, fs_open_w, fs_finish.
  destruct (files d !! dirname (storagePath st)) eqn:Hdir; cbn.
  - split; [discriminate|]. intros [[? _] _]. discriminate.
  - destruct (decide _) as [Hin|Hout]; cbn.
    + split; [discriminate|]. intros [(_ & Hno & Hne) _]. exfalso.
      apply elem_of_union in Hin as [Hin|Hin]; [|auto].
      apply elem_of_singleton in Hin. auto.
    + rewrite insert_insert_eq. split.
      * intros [= <-]. split; [|reflexivity]. split; [reflexivity|].
        split; intros H; apply Hout; [apply elem_of_union_r, H|].
        apply elem_of_union_l, elem_of_singleton, H.
      * intros [_ ->]. reflexivity.
Qed.

Lemma save_rejects st r d reason d' :
  save st r d = (inl reason, d') -> ¬ writable st d ∧ files d' = files d.
Proof.
  unfold writable, save, run_calls, save_calls. cbn.
  eff_unfold. unfold fs_mkdir, fs_open_w, fs_finish.
  destruct (files d !! dirname (storagePath st)) eqn:Hdir; cbn.
  - intros [= _ <-]. split; [|reflexivity]. intros [? _]. discriminate.
  - destruct (decide _) as [Hin|Hout]; cbn; [|discriminate].
    intros [= _ <-]. split; [|reflexivity]. intros (_ & Hno & Hne).
    apply elem_of_union in Hin as [Hin|Hin]; [|auto].
    apply elem_of_singleton in Hin. auto.
Qed.

Lemma writable_after_save st r d d' :
  save st r d = (inr tt, d') -> writable st d'.
Proof.
  intros H. apply save_returns in H as [(Hdir & Hno & Hne) ->].
  unfold writable. cbn. split; [|split; [|exact Hne]].
  - rewrite lookup_insert_ne by congruence. exact Hdir.
  - intros Hin. apply elem_of_union in Hin as [Hin|Hin]; [|auto].
    apply elem_of_singleton in Hin. auto.
Qed.

(** X16.  A [save] that returns has left the document at its path,
    complete, and has changed no other file; the parent directory exists
    and no directory is gone; and every later [save] returns too, the last
    one being the one [load] reads.  A [save] that [mkdir] or the opening
    of the file rejects has changed no file. *)
Theorem X16_save_touches_one_file st r d :
  (∀ d', save st r d = (inr tt, d') ->
         files d' !! storagePath st = Some (Complete (JSON_stringify r))
         ∧ (∀ p, p ≠ storagePath st -> files d' !! p = files d !! p)
         ∧ dirname (storagePath st) ∈ dirs d'
         ∧ dirs d ⊆ dirs d'
         ∧ ∀ r2, ∃ d2, save st r2 d' = (inr tt, d2)
                       ∧ loaded st d2 = Some (JSON_stringify r2))
  ∧ (∀ reason d', save st r d = (inl reason, d') -> files d' = files d).
Proof.
  split.
  - intros d' H. pose proof (writable_after_save _ _ _ _ H) as Hw.
    pose proof H as Hd. apply save_returns in Hd as [_ ->]. cbn.
    split; [apply lookup_insert_eq|]. split; [|split; [|split]].
    + intros p Hp. apply lookup_insert_ne. congruence.
    + apply elem_of_union_l, elem_of_singleton. reflexivity.
    + apply union_subseteq_r.
    + intros r2. eexists. split.
      * apply save_returns. split; [exact Hw|reflexivity].
      * eapply save_then_load. apply save_returns. split; [exact Hw|reflexivity].
  - intros reason d' H. apply save_rejects in H as [_ H]. exact H.
Qed.

Lemma transition_writable table guards trigger payload now s :
  writable (store (machine s)) (disk s) ->
  writable (store (machine (transition table guards trigger payload now s).2))
           (disk (transition table guards trigger payload now s).2)
  ∧ ∀ reason, (transition table guards trigger payload now s).1
              ≠ inl (StorageError reason).
Proof.
  intros Hw. rewrite transition_store.
  rewrite transition_unfold. unfold transition_steps.
  destruct (resolve table (machine s) trigger) as [m1 [to|]] eqn:Hres; cbn;
    [|split; [exact Hw|discriminate]].
  destruct (guardAccepts guards to _); cbn; [|split; [exact Hw|discriminate]].
  pose proof (resolve_fixed table (machine s) trigger) as (Hst & _).
  rewrite Hres in Hst. cbn in Hst.
  destruct (save _ _ (disk s)) as [[reason|[]] d'] eqn:Hsave; cbn;
    rewrite Hst in Hsave.
  - apply save_rejects in Hsave as [Hno _]. contradiction.
  - split; [|discriminate]. eapply writable_after_save, Hsave.
Qed.

Lemma runCalls_writable table guards cs : ∀ s,
  writable (store (machine s)) (disk s) ->
  writable (store (machine (runCalls table guards cs s)))
           (disk (runCalls table guards cs s)).
Proof.
  induction cs as [|c cs IH]; intros s Hw; cbn; [exact Hw|].
  apply IH. unfold call. apply transition_writable, Hw.
Qed.


Lemma writable_fresh : writable (store (machine freshSys)) (disk freshSys).
Proof.
  split; [reflexivity|]. split.
  - apply not_elem_of_empty.
  - apply (bool_decide_unpack _). vm_compute. exact I.
Qed.


(** *** The data-flow bridge *)

Lemma wdc_lookup d k :
  workflowDataToContext d !! k
  = match d !! k with
    | Some v => if isUndefined v then None else Some v
    | None => None
    end.
Proof.
  unfold workflowDataToContext. rewrite map_lookup_filter.
  destruct (d !! k) as [v|]; cbn; [|reflexivity].
  destruct (isUndefined v) eqn:Hu.
  - rewrite option_guard_False; [reflexivity|]. cbn. congruence.
  - rewrite option_guard_True; [reflexivity|]. cbn. congruence.
Qed.

Lemma wdc_prop d k : prop (workflowDataToContext d) k = prop d k.
Proof.
  unfold prop. rewrite wdc_lookup. destruct (d !! k) as [v|]; [|reflexivity].
  destruct v; reflexivity.
Qed.

(** X18.  [workflowDataToContext] drops exactly the entries whose value
    is [undefined].  No property reads differently afterwards, a second
    pass changes nothing, and the document that [JSON.stringify] makes of
    the context is the same with or without it. *)
Theorem X18_workflowDataToContext_drops_undefined d :
  (∀ k v, workflowDataToContext d !! k = Some v ↔ d !! k = Some v ∧ v ≠ JUndefined)
  ∧ (∀ k, prop (workflowDataToContext d) k = prop d k)
  ∧ workflowDataToContext (workflowDataToContext d) = workflowDataToContext d
  ∧ jsonContext (workflowDataToContext d) = jsonContext d.
Proof.
  split; [|split; [exact (wdc_prop d)|split]].
  - intros k v. rewrite wdc_lookup. destruct (d !! k) as [x|]; [|split; [discriminate|]].
    + destruct x; cbn; split; try discriminate; try (intros [= <-]; split; congruence);
        try (intros [[= <-] H]; congruence).
    + intros [H _]. discriminate.
  - apply map_eq. intros k. rewrite !wdc_lookup.
    destruct (d !! k) as [x|]; [|reflexivity]. destruct x; reflexivity.
  - apply map_eq. intros k. rewrite !jsonContext_lookup, wdc_lookup.
    destruct (d !! k) as [x|]; [|reflexivity]. destruct x; reflexivity.
Qed.

Lemma cwd_lookup ctx k :
  contextToWorkflowData ctx !! k
  = if decide (k = "input") then Some (nullish (prop ctx "input") emptyInput)
    else if decide (k ∈ stageFields) then Some (prop ctx k) else None.
Proof.
  unfold contextToWorkflowData, stageFields. cbn [map list_to_map foldr].
  destruct (decide (k = "input")) as [->|Hinput]; [apply lookup_insert_eq|].
  rewrite lookup_insert_ne by (intros H; symmetry in H; contradiction).
  repeat match goal with
    | |- context [<[?f := _]> _ !! k] =>
        destruct (decide (k = f)) as [->|?];
        [rewrite lookup_insert_eq; destruct (decide _) as [|Hn]; [reflexivity|];
         exfalso; apply Hn;
         repeat (first [apply list_elem_of_here | apply list_elem_of_further])
        |rewrite lookup_insert_ne by (intros H; symmetry in H; contradiction)]
    end.
  rewrite lookup_empty. destruct (decide _) as [Hin|]; [|reflexivity].
  exfalso. repeat (apply elem_of_cons in Hin as [Hin|Hin]; [contradiction|]).
  inversion Hin.
Qed.

(** X19.  [contextToWorkflowData] always yields the twelve fields of
    [WorkflowData] and nothing else.  Each stage field reads as it does in
    the context; [input] is never [undefined] or [null]; and whatever else
    the context holds, the [query] that the guard of [guards.ts] reads
    included, is gone when the data goes back into a context.  Data that
    has only those fields and an [input] comes back unchanged. *)
Theorem X19_contextToWorkflowData_keeps_the_fields ctx :
  (∀ k, is_Some (contextToWorkflowData ctx !! k) ↔ k ∈ "input" :: stageFields)
  ∧ (∀ k, k ∈ stageFields -> prop (contextToWorkflowData ctx) k = prop ctx k)
  ∧ prop (contextToWorkflowData ctx) "input" ≠ JUndefined
  ∧ prop (contextToWorkflowData ctx) "input" ≠ JNull
  ∧ (∀ k, k ∉ "input" :: stageFields ->
          prop (workflowDataToContext (contextToWorkflowData ctx)) k = JUndefined)
  ∧ ((∀ k, is_Some (ctx !! k) -> k ∈ "input" :: stageFields) ->
     nullish (prop ctx "input") emptyInput = prop ctx "input" ->
     workflowDataToContext (contextToWorkflowData ctx) = workflowDataToContext ctx).
Proof.
  assert (Hnot : "input" ∉ stageFields).
  { intros Hin. unfold stageFields in Hin.
    repeat (apply elem_of_cons in Hin as [Hin|Hin]; [discriminate Hin|]).
    inversion Hin. }
  split; [|split; [|split; [|split; [|split]]]].
  - intros k. rewrite cwd_lookup, elem_of_cons.
    destruct (decide (k = "input")); [split; eauto|].
    destruct (decide (k ∈ stageFields)); [split; eauto|].
    split; [intros [? H]; discriminate H|]. intros [?|?]; contradiction.
  - intros k Hk. unfold prop at 1. rewrite cwd_lookup.
    destruct (decide (k = "input")) as [->|]; [contradiction|].
    destruct (decide _); [reflexivity|contradiction].
  - unfold prop at 1. rewrite cwd_lookup. cbn.
    destruct (prop ctx "input"); discriminate.
  - unfold prop at 1. rewrite cwd_lookup. cbn.
    destruct (prop ctx "input"); discriminate.
  - intros k Hk. rewrite wdc_prop. unfold prop. rewrite cwd_lookup.
    rewrite elem_of_cons in Hk.
    destruct (decide (k = "input")); [exfalso; auto|].
    destruct (decide _); [exfalso; auto|reflexivity].
  - intros Hdom Hinput. apply map_eq. intros k. rewrite !wdc_lookup, cwd_lookup.
    destruct (decide (k = "input")) as [->|Hk].
    + rewrite Hinput. unfold prop. destruct (ctx !! "input") as [v|]; reflexivity.
    + destruct (decide (k ∈ stageFields)) as [Hin|Hout].
      * unfold prop. destruct (ctx !! k) as [v|]; reflexivity.
      * destruct (ctx !! k) as [v|] eqn:Hv; [|reflexivity].
        exfalso. specialize (Hdom k). rewrite Hv in Hdom.
        specialize (Hdom (mk_is_Some _ _ eq_refl)).
        apply elem_of_cons in Hdom as [?|?]; contradiction.
Qed.

(** *** The execution loop *)

Lemma executeLoop_unfold table guards coordinator ts fuel w :
  executeLoop table guards coordinator ts fuel w
  = if shouldContinue (state (machine (sys w)))
    then match fuel with
         | O => (inr None, w)
         | S fuel' =>
             match loopBody table guards coordinator ts (state (machine (sys w))) w with
             | (inr true, w1) => executeLoop table guards coordinator ts fuel' w1
             | (inr false, w1) =>
                 (inr (Some (mkResult (mapStateToStatus (state (machine (sys w1))))
                                      (state (machine (sys w1))) (data (orch w1))
                                      (attempt (machine (sys w1)))
                                      match mapStateToStatus (state (machine (sys w1))),
                                            lastError (orch w1) with
                                      | failed, Some c => Some (payloadOf c)
                                      | _, _ => None
                                      end)), w1)
             | (inl e, w1) => (inl e, w1)
             end
         end
    else (inr (Some (mkResult (mapStateToStatus (state (machine (sys w))))
                              (state (machine (sys w))) (data (orch w))
                              (attempt (machine (sys w)))
                              match mapStateToStatus (state (machine (sys w))),
                                    lastError (orch w) with
                              | failed, Some c => Some (payloadOf c)
                              | _, _ => None
                              end)), w).
Proof.
  destruct w as [o sy].
  destruct fuel as [|fuel']; cbn [executeLoop];
    unfold onSys, this, buildResult, self; eff_unfold; cbn [sys orch];
    destruct (shouldContinue (state (machine sy))); try reflexivity.
  destruct (loopBody _ _ _ _ _ _) as [[e|[]] [o1 sy1]]; reflexivity.
Qed.

(** X20.  In [IDLE] with no pause or cancel requested the loop never ends:
    [IDLE] has no success trigger, so [executeState] returns at once and
    the loop comes round in the same world, whatever the number of
    iterations.  This is where [resume] ends up for a run of which the
    store holds no record. *)
Theorem X20_idle_loop_never_ends table guards coordinator ts fuel w
    (Hidle : state (machine (sys w)) = IDLE) :
  (pauseRequested (orch w) = false -> cancelRequested (orch w) = false ->
   executeLoop table guards coordinator ts fuel w = (inr None, w))
  ∧ (loaded (store (machine (sys w))) (disk (sys w)) = None ->
     resume table guards coordinator ts fuel w
     = (inr None,
        mkWorld (mkOrchestrator (recovery (orch w))
                   (contextToWorkflowData (context (machine (sys w)))) false false None)
                (sys w))).
Proof.
  assert (Hloop : ∀ w, state (machine (sys w)) = IDLE ->
            pauseRequested (orch w) = false -> cancelRequested (orch w) = false ->
            executeLoop table guards coordinator ts fuel w = (inr None, w)).
  { clear w Hidle. induction fuel as [|fuel IH]; intros w Hidle Hp Hc;
      rewrite executeLoop_unfold, Hidle; cbn [shouldContinue existsb State_beq negb orb];
      [reflexivity|].
    unfold loopBody, self, executeState. eff_unfold. cbn. rewrite Hp, Hc.
    apply IH; assumption. }
  split; [apply Hloop, Hidle|].
  intros Hnone. destruct w as [o [m d ev]]. cbn in Hidle, Hnone.
  unfold resume, onOrch, onSys, initialize, storeLoad, this, self. eff_unfold.
  cbn. rewrite Hnone. cbn. rewrite Hidle. cbn.
  apply Hloop; reflexivity || exact Hidle.
Qed.

Lemma X20_witness :
  executeLoop transitions transitionGuards analysing "t01" 1000 freshWorld
  = (inr None, freshWorld).
Proof.
  apply (X20_idle_loop_never_ends transitions transitionGuards analysing "t01" 1000
           freshWorld); reflexivity.
Defined.

Lemma stop_commits table guards trigger to payload ts s s1 :
  (trigger, to) ∈ [(PAUSE, PAUSED); (CANCEL, CANCELLED)] ->
  shouldContinue (state (machine s)) = true ->
  transition table guards trigger payload ts s = (inr tt, s1) ->
  state (machine s1) = to ∧ attempt (machine s1) = attempt (machine s).
Proof.
  intros Hin Hgo Htr.
  pose proof (transition_attempt table guards trigger payload ts s) as Ha.
  pose proof (transition_cases table guards trigger payload ts s) as Hc.
  cbn zeta in Hc. rewrite Htr in Ha, Hc. cbn [snd] in Ha.
  assert (Hres : resolve table (machine s) trigger = (machine s, Some to)
                 ∧ Trigger_beq trigger RETRY = false).
  { repeat (apply elem_of_cons in Hin as [[= -> ->]|Hin];
            [split; [|reflexivity]; unfold resolve;
             destruct (state (machine s)); try discriminate Hgo; reflexivity|]).
    inversion Hin. }
  destruct Hres as [Hres Hnr]. rewrite Hres in Hc. rewrite Hnr in Ha. cbn [fst snd] in Hc.
  split; [|exact Ha].
  destruct (guardAccepts _ _ _); [|discriminate Hc].
  destruct Hc as [(d & _ & [= ->])|(r & d & _ & [=])]. reflexivity.
Qed.

(** X21.  A pause or cancel request is served before the handler of the
    current state: in a state in which the loop goes on, other than
    [ERROR], the next iteration issues [PAUSE], or [CANCEL] when only a
    cancel was requested, and ends the run.  No handler runs, the data is
    as it was, and a pause takes precedence over a cancel.  When the
    transition is rejected, [executeLoop] rejects with its error. *)
Theorem X21_requests_come_before_handlers table guards coordinator ts fuel w
    (Hgo : shouldContinue (state (machine (sys w))) = true)
    (Hok : state (machine (sys w)) ≠ ERROR)
    (Hreq : pauseRequested (orch w) || cancelRequested (orch w) = true) :
  let trigger := if pauseRequested (orch w) then PAUSE else CANCEL in
  let to := if pauseRequested (orch w) then PAUSED else CANCELLED in
  let call :=
    transition table guards trigger
      (Some (mkPayload (Some (workflowDataToContext (data (orch w)))) None)) ts (sys w) in
  let out := executeLoop table guards coordinator ts (S fuel) w in
  out.2 = mkWorld (orch w) call.2
  ∧ match call.1 with
    | inr _ =>
        state (machine call.2) = to
        ∧ out.1 = inr (Some (mkResult (if pauseRequested (orch w) then paused else cancelled)
                               to (data (orch w)) (attempt (machine (sys w))) None))
    | inl t => out.1 = inl (toExn t)
    end.
Proof.
  cbn zeta. rewrite executeLoop_unfold, Hgo.
  assert (Hne : State_beq (state (machine (sys w))) ERROR = false)
    by (apply State_beq_neq, Hok).
  unfold loopBody. rewrite Hne. unfold self, onSys. eff_unfold. cbn [orch sys].
  destruct (pauseRequested (orch w)) eqn:Hp.
  - destruct (transition table guards PAUSE _ ts (sys w)) as [[t|[]] s1] eqn:Htr;
      cbn [fst snd sys orch]; [split; reflexivity|].
    split; [reflexivity|].
    destruct (stop_commits table guards PAUSE PAUSED _ ts (sys w) s1
                (list_elem_of_here _ _) Hgo Htr) as [Hst Ha].
    rewrite Hst, Ha. cbn. auto.
  - cbn in Hreq. rewrite Hreq.
    destruct (transition table guards CANCEL _ ts (sys w)) as [[t|[]] s1] eqn:Htr;
      cbn [fst snd sys orch]; [split; reflexivity|].
    split; [reflexivity|].
    destruct (stop_commits table guards CANCEL CANCELLED _ ts (sys w) s1
                (list_elem_of_further _ _ _ (list_elem_of_here _ _)) Hgo Htr) as [Hst Ha].
    rewrite Hst, Ha. cbn. auto.
Qed.

Lemma X21_witness :
  (executeLoop transitions transitionGuards failingTests "t08" 1 pausingWorld).1
  = inr (Some (mkResult paused PAUSED readyContext 1 None)).
Proof.
  assert (Hgo : shouldContinue (state (machine (sys pausingWorld))) = true)
    by (vm_compute; reflexivity).
  assert (Hok : state (machine (sys pausingWorld)) ≠ ERROR)
    by (vm_compute; discriminate).
  pose proof (X21_requests_come_before_handlers transitions transitionGuards failingTests
                "t08" 0 pausingWorld Hgo Hok eq_refl) as H.
  cbv zeta in H. destruct H as [_ H].
  vm_compute in H. vm_compute. exact (proj2 H).
Defined.

(** *** What a run reports *)

#[local] Instance steady_refl : Reflexive steady.
Proof. intros w H. exact H. Qed.

#[local] Instance steady_trans : Transitive steady.
Proof. intros a b c H1 H2 H. auto. Qed.

Lemma steady_self : preserves steady self.
Proof. intros w. cbn. reflexivity. Qed.

Lemma steady_onOrch f : preserves steady (onOrch f).
Proof. intros w H. exact H. Qed.

Lemma steady_transition table guards trigger payload ts :
  preserves steady (onSys (transition table guards trigger payload ts)).
Proof.
  intros w Hw. unfold canSave, onSys in *.
  pose proof (transition_writable table guards trigger payload ts (sys w) Hw) as [H _].
  destruct (transition _ _ _ _ _ _) as [[?|?] ?]; exact H.
Qed.

Lemma steady_execute coordinator s d : preserves steady (execute coordinator s d).
Proof.
  unfold execute. destruct (coordinator s) as [handler|]; [|apply preserves_throw; apply _].
  apply preserves_bind; try apply _.
  - destruct (request _); [apply preserves_ret; apply _| |]; apply steady_onOrch.
  - intros _. destruct (outcome _); [apply preserves_throw|apply preserves_ret]; apply _.
Qed.

Lemma steady_executeState table guards coordinator ts s :
  preserves steady (executeState table guards coordinator ts s).
Proof.
  unfold executeState.
  destruct (SUCCESS_TRIGGERS s) as [trigger|]; [|apply preserves_ret; apply _].
  apply preserves_tryCatch; try apply _.
  - apply preserves_bind; try apply _; [apply steady_self|intros o].
    apply preserves_bind; try apply _; [apply steady_execute|intros result].
    apply preserves_bind; try apply _; [apply steady_onOrch|intros _].
    apply preserves_bind; try apply _; [apply steady_self|intros o'].
    apply steady_transition.
  - intros e.
    apply preserves_bind; try apply _; [apply steady_onOrch|intros _].
    apply preserves_bind; try apply _; [apply steady_self|intros o'].
    apply steady_transition.
Qed.

Lemma steady_this : preserves steady (onSys this).
Proof. intros [o sy] H. exact H. Qed.

Lemma steady_attemptRecovery table guards ts :
  preserves steady (attemptRecovery table guards ts).
Proof.
  unfold attemptRecovery.
  apply preserves_bind; try apply _; [apply steady_self|intros o].
  destruct (lastError o) as [err|]; [|apply preserves_ret; apply _].
  apply preserves_bind; try apply _; [apply steady_this|intros m].
  destruct (negb _); [apply preserves_ret; apply _|].
  apply preserves_tryCatch; try apply _; [|intros; apply preserves_ret; apply _].
  apply preserves_bind; try apply _; [apply steady_transition|intros _].
  apply preserves_bind; try apply _; [apply steady_onOrch|intros _].
  apply preserves_ret; apply _.
Qed.

Lemma steady_loopBody table guards coordinator ts s :
  preserves steady (loopBody table guards coordinator ts s).
Proof.
  unfold loopBody. destruct (State_beq s ERROR).
  - apply preserves_bind; try apply _; [apply steady_attemptRecovery|intros r].
    apply preserves_ret; apply _.
  - apply preserves_bind; try apply _; [apply steady_self|intros o].
    destruct (pauseRequested o); [|destruct (cancelRequested o)].
    + apply preserves_bind; try apply _; [apply steady_transition|intros _].
      apply preserves_ret; apply _.
    + apply preserves_bind; try apply _; [apply steady_transition|intros _].
      apply preserves_ret; apply _.
    + apply preserves_bind; try apply _; [apply steady_executeState|intros _].
      apply preserves_ret; apply _.
Qed.

(** A call that is rejected before the save leaves the state as it was. *)
Lemma rejected_state table guards trigger payload ts s t s1 :
  transition table guards trigger payload ts s = (inl t, s1) ->
  (∀ reason, t ≠ StorageError reason) ->
  state (machine s1) = state (machine s).
Proof.
  intros Htr Hno.
  pose proof (transition_cases table guards trigger payload ts s) as Hc.
  cbn zeta in Hc. rewrite Htr in Hc.
  destruct (resolve_fixed table (machine s) trigger) as (_ & _ & Hst & _).
  destruct (resolve table (machine s) trigger) as [m1 [to|]]; cbn in *.
  - destruct (guardAccepts _ _ _).
    + destruct Hc as [(d & _ & [=])|(r & d & _ & [= -> _])]. exfalso. eapply Hno. reflexivity.
    + injection Hc as _ ->. exact Hst.
  - injection Hc as _ ->. exact Hst.
Qed.

(** Where the loop breaks when the store can be written. *)
Lemma loopBody_breaks table guards coordinator ts w w1 :
  canSave w ->
  shouldContinue (state (machine (sys w))) = true ->
  loopBody table guards coordinator ts (state (machine (sys w))) w = (inr false, w1) ->
  state (machine (sys w1)) ∈ [PAUSED; CANCELLED; ERROR].
Proof.
  intros Hw Hgo Hbody. unfold loopBody in Hbody.
  destruct (State_beq (state (machine (sys w))) ERROR) eqn:Herr.
  - apply State_beq_eq in Herr.
    assert (Hin : ∀ x, x = ERROR -> x ∈ [PAUSED; CANCELLED; ERROR]).
    { intros x ->. repeat (first [apply list_elem_of_here | apply list_elem_of_further]). }
    apply Hin. clear Hin.
    unfold attemptRecovery, self, onSys, this, onOrch in Hbody. eff_unfold.
    cbn [orch sys] in Hbody.
    destruct (lastError (orch w)) as [c|]; [|injection Hbody as <-; exact Herr].
    destruct (negb _); [injection Hbody as <-; exact Herr|].
    pose proof (transition_writable table guards RETRY None ts (sys w) Hw) as [_ Hno].
    cbn in Hbody.
    destruct (transition table guards RETRY None ts (sys w)) as [[t|[]] s1] eqn:Htr;
      cbn in Hbody; [|discriminate Hbody].
    injection Hbody as <-. cbn. rewrite <- Herr.
    eapply rejected_state; [exact Htr|]. intros reason ->. apply (Hno reason). reflexivity.
  - unfold self, onSys in Hbody. eff_unfold. cbn [orch sys] in Hbody.
    destruct (pauseRequested (orch w)); [|destruct (cancelRequested (orch w))].
    + destruct (transition table guards PAUSE _ ts (sys w)) as [[t|[]] s1] eqn:Htr;
        [discriminate Hbody|]. injection Hbody as <-. cbn.
      destruct (stop_commits table guards PAUSE PAUSED _ ts (sys w) s1
                  (list_elem_of_here _ _) Hgo Htr) as [-> _].
      apply list_elem_of_here.
    + destruct (transition table guards CANCEL _ ts (sys w)) as [[t|[]] s1] eqn:Htr;
        [discriminate Hbody|]. injection Hbody as <-. cbn.
      destruct (stop_commits table guards CANCEL CANCELLED _ ts (sys w) s1
                  (list_elem_of_further _ _ _ (list_elem_of_here _ _)) Hgo Htr) as [-> _].
      apply list_elem_of_further, list_elem_of_here.
    + destruct (executeState _ _ _ _ _ _) as [[e|[]] w2]; discriminate Hbody.
Qed.

(** X22.  On a store that can be written, a result of [executeLoop] is
    always final: the machine is in [DONE], [CANCELLED], [PAUSED] or
    [ERROR], the status is the one of that state and never [running], the
    attempt and the data are those of the orchestrator at that moment, and
    the error is reported exactly when the status is [failed]. *)
Theorem X22_a_result_is_final table guards coordinator ts fuel w res w'
    (Hw : canSave w)
    (Hrun : executeLoop table guards coordinator ts fuel w = (inr (Some res), w')) :
  finalState res = state (machine (sys w'))
  ∧ finalState res ∈ [DONE; CANCELLED; PAUSED; ERROR]
  ∧ status res = mapStateToStatus (finalState res)
  ∧ status res ≠ running
  ∧ r_attempt res = attempt (machine (sys w'))
  ∧ r_data res = data (orch w')
  ∧ r_error res = (if State_beq (finalState res) ERROR
                   then payloadOf <$> lastError (orch w') else None)
  ∧ canSave w'.
Proof.
  revert w Hw Hrun. induction fuel as [|fuel IH]; intros w Hw Hrun;
    rewrite executeLoop_unfold in Hrun;
    destruct (shouldContinue (state (machine (sys w)))) eqn:Hgo.
  - discriminate Hrun.
  - injection Hrun as <- <-. cbn.
    destruct (state (machine (sys w))); try discriminate Hgo; cbn;
      repeat split; try discriminate; try apply Hw; try reflexivity;
      repeat (first [apply list_elem_of_here | apply list_elem_of_further]).
  - pose proof (steady_loopBody table guards coordinator ts (state (machine (sys w))) w Hw) as Hw1.
    pose proof (loopBody_breaks table guards coordinator ts w) as Hbreak.
    destruct (loopBody _ _ _ _ _ w) as [[e|[]] w1] eqn:Hbody; cbn in Hw1.
    + discriminate Hrun.
    + eapply IH; eassumption.
    + specialize (Hbreak w1 Hw Hgo eq_refl).
      injection Hrun as <- <-. cbn.
      repeat (apply elem_of_cons in Hbreak as [->|Hbreak]);
        [| | |inversion Hbreak]; cbn;
        repeat split; try discriminate; try apply Hw1; try reflexivity;
        repeat (first [apply list_elem_of_here | apply list_elem_of_further]);
        destruct (lastError (orch w1)); reflexivity.
  - injection Hrun as <- <-. cbn.
    destruct (state (machine (sys w))); try discriminate Hgo; cbn;
      repeat split; try discriminate; try apply Hw; try reflexivity;
      repeat (first [apply list_elem_of_here | apply list_elem_of_further]).
Qed.

Lemma canSave_testing limit : canSave (testingWorld limit).
Proof.
  unfold canSave, testingWorld, testingSys. cbn [sys].
  apply runCalls_writable, writable_fresh.
Qed.

Lemma X22_witness :
  ∃ res,
    (executeLoop transitions transitionGuards failingTests "t08" 2 (testingWorld 1)).1
    = inr (Some res)
    ∧ finalState res ∈ [DONE; CANCELLED; PAUSED; ERROR] ∧ status res ≠ running.
Proof.
  pose (res := mkResult failed ERROR readyContext 1
                 (Some (mkErrorPayload "RETRYABLE_ERROR" "All tests failed" None))).
  assert (Hrun : executeLoop transitions transitionGuards failingTests "t08" 2
                   (testingWorld 1)
                 = (inr (Some res),
                    (executeLoop transitions transitionGuards failingTests "t08" 2
                       (testingWorld 1)).2))
    by (vm_compute; reflexivity).
  exists res. split; [rewrite Hrun; reflexivity|].
  pose proof (X22_a_result_is_final transitions transitionGuards failingTests "t08" 2
                (testingWorld 1) res _ (canSave_testing 1) Hrun) as H.
  split; apply H.
Defined.

(** X23.  The loop can nevertheless report [running].  When the save of
    the [RETRY] transition fails, [attemptRecovery] catches the rejection
    and reports that recovery failed, but the machine has already moved on:
    with the entry from [ERROR] to [GENERATING] in the map, the run ends
    with status [running] in [GENERATING], one attempt spent, the error
    still recorded in the orchestrator and not reported in the result. *)
Theorem X23_failed_retry_reports_running table guards coordinator ts fuel w c reason s1
    (Hentry : table ERROR RETRY = Some GENERATING)
    (Hst : state (machine (sys w)) = ERROR)
    (Herr : lastError (orch w) = Some c)
    (Hretry : shouldRetry (recovery (orch w)) (attempt (machine (sys w))) c = true)
    (Hsave : transition table guards RETRY None ts (sys w)
             = (inl (StorageError reason), s1)) :
  executeLoop table guards coordinator ts (S fuel) w
  = (inr (Some (mkResult running GENERATING (data (orch w))
                         (attempt (machine (sys w)) + 1) None)),
     mkWorld (orch w) s1)
  ∧ state (machine s1) = GENERATING
  ∧ loaded (store (machine s1)) (disk s1)
    = loaded (store (machine (sys w))) (disk (sys w)).
Proof.
  pose proof (transition_attempt table guards RETRY None ts (sys w)) as Ha.
  pose proof (transition_cases table guards RETRY None ts (sys w)) as Hc.
  cbn zeta in Hc. rewrite Hsave in Ha, Hc. cbn in Ha.
  assert (Hres : resolve table (machine (sys w)) RETRY
                 = (setAttempt (attempt (machine (sys w)) + 1) (machine (sys w)),
                    Some GENERATING)).
  { unfold resolve. rewrite Hst, Hentry. reflexivity. }
  rewrite Hres in Hc. cbn [fst snd] in Hc.
  assert (Hs1 : state (machine s1) = GENERATING
                ∧ store (machine s1) = store (machine (sys w))
                ∧ files (disk s1) = files (disk (sys w))).
  { destruct (guardAccepts _ _ _); [|discriminate Hc].
    destruct Hc as [(d & _ & [=])|(r & d & Hsv & [= _ ->])]. cbn.
    apply save_rejects in Hsv as [_ Hf]. auto. }
  destruct Hs1 as (Hgen & Hstore & Hfiles).
  split; [|split; [exact Hgen|]].
  - rewrite executeLoop_unfold, Hst. cbn [shouldContinue existsb State_beq negb orb].
    unfold loopBody. cbn [State_beq].
    unfold attemptRecovery, self, onSys, this, onOrch. eff_unfold. cbn.
    rewrite Herr, Hretry. cbn. rewrite Hsave. cbn. rewrite Hgen, Ha. reflexivity.
  - rewrite Hstore. apply loaded_files. rewrite Hfiles. reflexivity.
Qed.

Lemma X23_witness :
  (executeLoop transitions transitionGuards failingTests "t09" 1 strandedWorld).1
  = inr (Some (mkResult running GENERATING readyContext 2 None)).
Proof.
  pose proof (X23_failed_retry_reports_running transitions transitionGuards failingTests
                "t09" 0 strandedWorld
                (classify (ErrorObject "All tests failed" None) TESTING)
                "EEXIST: file already exists, mkdir .osc-agent/run-1"
                (transition transitions transitionGuards RETRY None "t09"
                   (sys strandedWorld)).2) as H.
  destruct H as [H _].
  - reflexivity.
  - vm_compute. reflexivity.
  - vm_compute. reflexivity.
  - vm_compute. reflexivity.
  - vm_compute. reflexivity.
  - rewrite H. cbn [fst]. vm_compute. reflexivity.
Defined.

(** *** The retry budget *)

#[local] Instance withinBudget_refl : Reflexive withinBudget.
Proof. intros w. unfold withinBudget. repeat split; lia. Qed.

#[local] Instance withinBudget_trans : Transitive withinBudget.
Proof.
  intros a b c (H1 & H2 & H3) (H4 & H5 & H6). unfold withinBudget.
  rewrite H1 in H6. split; [congruence|]. lia.
Qed.

Lemma sameRun_within w w' : sameRun w w' -> withinBudget w w'.
Proof. intros [H1 H2]. unfold withinBudget. rewrite H2. repeat split; [exact H1|lia|lia]. Qed.

Lemma preserves_weaken {S E A} (R R' : S -> S -> Prop) (c : Eff S E A) :
  (∀ s s', R s s' -> R' s s') -> preserves R c -> preserves R' c.
Proof. intros H Hc s. apply H, Hc. Qed.

Lemma within_attemptRecovery table guards ts :
  preserves withinBudget (attemptRecovery table guards ts).
Proof.
  intros [o sy]. unfold attemptRecovery, self, onSys, this, onOrch. eff_unfold. cbn.
  destruct (lastError o) as [c|]; [|reflexivity].
  destruct (shouldRetry _ _ c) eqn:Hretry; cbn; [|reflexivity].
  apply shouldRetry_iff in Hretry as (_ & _ & Hlt).
  pose proof (transition_attempt table guards RETRY None ts sy) as Ha.
  cbn in Ha.
  destruct (transition table guards RETRY None ts sy) as [[t|[]] s1]; cbn in *;
    unfold withinBudget; cbn; rewrite Ha; repeat split; lia.
Qed.

Lemma within_loopBody table guards coordinator ts s :
  preserves withinBudget (loopBody table guards coordinator ts s).
Proof.
  unfold loopBody. destruct (State_beq s ERROR).
  - apply preserves_bind; try apply _; [apply within_attemptRecovery|intros r].
    apply preserves_ret; apply _.
  - apply (preserves_weaken sameRun); [exact sameRun_within|].
    apply preserves_bind; try apply _; [apply sameRun_self|intros o].
    destruct (pauseRequested o); [|destruct (cancelRequested o)].
    + apply preserves_bind; try apply _; [apply sameRun_transition; reflexivity|intros _].
      apply preserves_ret; apply _.
    + apply preserves_bind; try apply _; [apply sameRun_transition; reflexivity|intros _].
      apply preserves_ret; apply _.
    + apply preserves_bind; try apply _; [apply executeState_keeps|intros _].
      apply preserves_ret; apply _.
Qed.

(** X24.  However many iterations the loop makes and whatever the handlers
    do, the retry budget is never changed, the attempt counter never goes
    down, and it never passes the budget unless it was past it from the
    start; so a run makes at most [maxAttempts - attempt] retries. *)
Theorem X24_retries_stay_within_budget table guards coordinator ts fuel w :
  let w' := (executeLoop table guards coordinator ts fuel w).2 in
  recovery (orch w') = recovery (orch w)
  ∧ attempt (machine (sys w)) <= attempt (machine (sys w'))
    <= Z.max (attempt (machine (sys w))) (maxAttempts (recovery (orch w))).
Proof.
  cbn zeta. change (withinBudget w (executeLoop table guards coordinator ts fuel w).2).
  revert w. induction fuel as [|fuel IH]; intros w; rewrite executeLoop_unfold;
    destruct (shouldContinue _); try reflexivity.
  pose proof (within_loopBody table guards coordinator ts (state (machine (sys w))) w) as Hb.
  destruct (loopBody _ _ _ _ _ w) as [[e|[]] w1]; cbn in Hb |- *; try exact Hb.
  etransitivity; [exact Hb|apply IH].
Qed.

(** *** The entry points *)

(** X25.  [resume] never retries a run that it finds in [ERROR].  It
    clears [lastError] before it asks [attemptRecovery], which therefore
    has nothing to decide on: whatever the budget, the attempt count and
    the error in the stored record, the result is [failed] without an
    error, no handler runs, and the machine stays as [initialize] left
    it. *)
Theorem X25_resume_gives_up_on_errors table guards coordinator ts fuel w
    (Herr : state (machine (initialize (sys w)).2) = ERROR) :
  let s1 := (initialize (sys w)).2 in
  let d := contextToWorkflowData (context (machine s1)) in
  resume table guards coordinator ts fuel w
  = (inr (Some (mkResult failed ERROR d (attempt (machine s1)) None)),
     mkWorld (mkOrchestrator (recovery (orch w)) d false false None) s1).
Proof.
  cbn zeta. destruct w as [o sy]. cbn [sys orch] in *.
  unfold resume, onOrch, onSys, self, attemptRecovery, buildResult.
  unfold this at 1 2 3. eff_unfold. cbn [sys orch].
  assert (Hinit : ∃ s1, initialize sy = (inr tt, s1)).
  { unfold initialize, storeLoad, this, onMachine. eff_unfold.
    destruct (loaded _ _) as [r|]; [|eauto].
    destruct (String.eqb _ _); eauto. }
  destruct Hinit as [s1 Hinit]. rewrite Hinit in Herr |- *. cbn in Herr |- *.
  rewrite Herr. cbn. rewrite Herr. reflexivity.
Qed.

Lemma X25_witness :
  (resume transitions transitionGuards failingTests "t09" 5 crashedWorld).1
  = inr (Some (mkResult failed ERROR
                 (contextToWorkflowData (context (machine (initialize (sys crashedWorld)).2)))
                 1 None)).
Proof.
  rewrite (X25_resume_gives_up_on_errors transitions transitionGuards failingTests "t09" 5
             crashedWorld).
  - cbn [fst]. vm_compute. reflexivity.
  - vm_compute. reflexivity.
Defined.

(** A call whose destination is resolved and accepted commits when the
    store can be written. *)
Lemma commits_when_writable table guards trigger payload ts s m1 to :
  writable (store (machine s)) (disk s) ->
  resolve table (machine s) trigger = (m1, Some to) ->
  guardAccepts guards to (spreadOpt (context m1) (payloadContext payload)) = true ->
  ∃ s', transition table guards trigger payload ts s = (inr tt, s')
        ∧ machine s' = commit m1 trigger payload to.
Proof.
  intros Hw Hres Hg.
  pose proof (transition_writable table guards trigger payload ts s Hw) as [_ Hno].
  pose proof (transition_cases table guards trigger payload ts s) as Hc.
  cbn zeta in Hc. rewrite Hres in Hc. cbn [fst snd] in Hc. rewrite Hg in Hc.
  destruct Hc as [(d & _ & Hout)|(r & d & _ & Hout)].
  - rewrite Hout. eauto.
  - exfalso. apply (Hno r). rewrite Hout. reflexivity.
Qed.

Lemma success_trigger_resolves table s trigger m :
  SUCCESS_TRIGGERS s = Some trigger ->
  state m = s ->
  resolve table m trigger = (m, table s trigger)
  ∧ resolve table m FAIL = (m, Some ERROR).
Proof.
  intros Htr <-. unfold resolve.
  destruct (state m); try discriminate Htr; injection Htr as <-; split; reflexivity.
Qed.

Lemma execute_keeps_sys coordinator s d w :
  sys (execute coordinator s d w).2 = sys w.
Proof.
  unfold execute. destruct (coordinator s) as [handler|]; [|reflexivity].
  eff_unfold. destruct (request _); cbn; destruct (outcome _); reflexivity.
Qed.

(** X26.  [executeState] absorbs every failure.  In an operational state,
    with a store that can be written and no guard on [ERROR], it never
    rejects: either the handler resolved and the success transition
    committed, so that the machine is in the state the map gives and
    [lastError] is as before; or something failed (no handler, a handler
    that rejected, a success trigger without an entry in the map, a guard
    that refused) and the machine is in [ERROR], with the classification of
    the failure in [lastError] and its code, message and details in the
    stored record. *)
Theorem X26_executeState_absorbs_failures table guards coordinator ts s w
    (Hw : canSave w)
    (Hs : state (machine (sys w)) = s)
    (Hop : s ∈ OPERATIONAL_STATES)
    (Hg : guards ERROR = None) :
  ∃ w', executeState table guards coordinator ts s w = (inr tt, w')
        ∧ canSave w'
        ∧ ((lastError (orch w') = lastError (orch w)
            ∧ ∃ trigger, SUCCESS_TRIGGERS s = Some trigger
                         ∧ table s trigger = Some (state (machine (sys w'))))
           ∨ (state (machine (sys w')) = ERROR
              ∧ ∃ e, lastError (orch w') = Some (classify e s)
                     ∧ p_error <$> loaded (store (machine (sys w'))) (disk (sys w'))
                       = Some (Some (payloadOf (classify e s))))).
Proof.
  assert (Htr : ∃ trigger, SUCCESS_TRIGGERS s = Some trigger).
  { unfold OPERATIONAL_STATES in Hop.
    repeat (apply elem_of_cons in Hop as [->|Hop]; [eexists; reflexivity|]).
    inversion Hop. }
  destruct Htr as [trigger Htr].
  pose proof (steady_executeState table guards coordinator ts s w Hw) as Hw'.
  pose proof (try_block_keeps_lastError table guards coordinator ts s trigger w) as Hkeep.
  cbn zeta in Hkeep.
  unfold executeState in *. rewrite Htr in *. unfold tryCatch in *.
  set (block := (o ← self; result ← execute coordinator s (data o);
                 onOrch (setData (spread (data o) result));;
                 o0 ← self;
                 onSys (transition table guards trigger
                          (Some (mkPayload (Some (workflowDataToContext (data o0))) None))
                          ts)) : W unit) in *.
  assert (Hblock :
    match block w with
    | (inr _, w1) => table s trigger = Some (state (machine (sys w1)))
    | (inl _, w1) => state (machine (sys w1)) = s ∧ canSave w1
    end).
  { unfold block, self, onOrch. eff_unfold. cbn [orch sys].
    pose proof (execute_keeps_sys coordinator s (data (orch w)) w) as Hsys.
    destruct (execute coordinator s (data (orch w)) w) as [[e|result] w1] eqn:Hexec;
      cbn in Hsys.
    - unfold canSave. rewrite Hsys. auto.
    - cbn [orch sys]. unfold onSys. cbn [sys orch]. rewrite Hsys.
      set (payload := Some (mkPayload _ None)).
      pose proof (transition_cases table guards trigger payload ts (sys w)) as Hc.
      pose proof (transition_writable table guards trigger payload ts (sys w) Hw) as [Hw1 Hno].
      cbn zeta in Hc.
      destruct (success_trigger_resolves table s trigger (machine (sys w)) Htr Hs)
        as [Hres _].
      rewrite Hres in Hc. cbn [fst snd] in Hc.
      destruct (transition table guards trigger payload ts (sys w)) as [[t|[]] s1];
        cbn [sys orch fst snd] in *.
      + split; [|exact Hw1].
        destruct (table s trigger) as [to|].
        * destruct (guardAccepts _ _ _).
          -- destruct Hc as [(d & _ & [=])|(r & d & _ & [= -> _])].
             exfalso. apply (Hno r). reflexivity.
          -- injection Hc as _ ->. exact Hs.
        * injection Hc as _ ->. exact Hs.
      + destruct (table s trigger) as [to|]; [|discriminate Hc].
        destruct (guardAccepts _ _ _); [|discriminate Hc].
        destruct Hc as [(d & _ & [= ->])|(r & d & _ & [=])]. reflexivity. }
  destruct (block w) as [[e|[]] w1] eqn:Hb; cbn [fst snd] in *.
  - destruct Hblock as [Hs1 Hw1].
    unfold onOrch, self, onSys in *. eff_unfold. cbn [orch sys] in *.
    set (c := classify e s) in *.
    set (payload := Some (mkPayload _ (Some (payloadOf c)))) in *.
    destruct (success_trigger_resolves table s trigger (machine (sys w1)) Htr Hs1)
      as [_ Hres].
    destruct (commits_when_writable table guards FAIL payload ts (sys w1) _ ERROR Hw1 Hres)
      as (s2 & Hfail & Hm2).
    { unfold guardAccepts. rewrite Hg. reflexivity. }
    rewrite Hfail in Hw' |- *. cbn [fst snd sys orch] in *.
    eexists. split; [reflexivity|]. split; [exact Hw'|]. right. cbn [sys orch].
    split; [rewrite Hm2; reflexivity|]. exists e. split; [reflexivity|].
    rewrite (committed_record _ _ _ _ _ _ _ Hfail). reflexivity.
  - eexists. split; [reflexivity|]. split; [exact Hw'|]. left.
    split; [exact Hkeep|]. exists trigger. split; [reflexivity|exact Hblock].
Qed.

Lemma X26_witness :
  ∃ w', executeState transitions transitionGuards failingTests "t08" TESTING (testingWorld 3)
        = (inr tt, w')
        ∧ canSave w'
        ∧ ((lastError (orch w') = lastError (orch (testingWorld 3))
            ∧ ∃ trigger, SUCCESS_TRIGGERS TESTING = Some trigger
                         ∧ transitions TESTING trigger = Some (state (machine (sys w'))))
           ∨ (state (machine (sys w')) = ERROR
              ∧ ∃ e, lastError (orch w') = Some (classify e TESTING)
                     ∧ p_error <$> loaded (store (machine (sys w'))) (disk (sys w'))
                       = Some (Some (payloadOf (classify e TESTING))))).
Proof.
  apply (X26_executeState_absorbs_failures transitions transitionGuards failingTests "t08"
           TESTING (testingWorld 3) (canSave_testing 3)).
  - vm_compute. reflexivity.
  - unfold OPERATIONAL_STATES.
    repeat (first [apply list_elem_of_here | apply list_elem_of_further]).
  - reflexivity.
Defined.

(** X27.  [run] does not restart a run that the store knows as stopped.
    When [initialize] finds a record of this run in [DONE], [CANCELLED] or
    [PAUSED], no [START] is issued, no handler runs and nothing is written:
    [run] returns at once with the status of the stored state and the
    stored attempt count, and with data that holds the new input only,
    while the machine has the stored context. *)
Theorem X27_run_does_not_restart table guards coordinator ts input fuel w r
    (Hrec : loaded (store (machine (sys w))) (disk (sys w)) = Some r)
    (Hid : p_runId r = runId (machine (sys w)))
    (Hstop : currentState r ∈ [DONE; CANCELLED; PAUSED]) :
  run table guards coordinator ts input fuel w
  = (inr (Some (mkResult (mapStateToStatus (currentState r)) (currentState r)
                         {[ "input" := input ]} (p_attempt r) None)),
     mkWorld (mkOrchestrator (recovery (orch w)) {[ "input" := input ]} false false None)
             (mkSys (mkMachine (store (machine (sys w))) (runId (machine (sys w)))
                               (currentState r) (p_history r) (p_attempt r) (p_context r))
                    (disk (sys w)) (delivered (sys w))))
  ∧ mapStateToStatus (currentState r) ∈ [completed; cancelled; paused].
Proof.
  destruct w as [o [m d ev]]. cbn [sys orch machine disk delivered] in *.
  unfold run, onOrch, onSys, self, initialize, storeLoad, this, onMachine.
  eff_unfold. cbn [sys orch machine disk delivered].
  rewrite Hrec, Hid, String.eqb_refl. cbn [sys orch machine disk delivered state].
  repeat (apply elem_of_cons in Hstop as [->|Hstop]);
    [| | |inversion Hstop]; cbn [State_beq];
    rewrite executeLoop_unfold; cbn;
    (split; [reflexivity|]);
    repeat (first [apply list_elem_of_here | apply list_elem_of_further]).
Qed.

Lemma X27_witness :
  (run transitions transitionGuards analysing "t11" (JString "acme/widget#7") 3
     finishedWorld).1
  = inr (Some (mkResult completed DONE {[ "input" := JString "acme/widget#7" ]} 1 None)).
Proof.
  pose proof (X27_run_does_not_restart transitions transitionGuards analysing "t11"
                (JString "acme/widget#7") 3 finishedWorld
                (default recordA (loaded sampleStore (disk doneSys)))) as H.
  destruct H as [H _].
  - vm_compute. reflexivity.
  - vm_compute. reflexivity.
  - replace (currentState _) with DONE by (vm_compute; reflexivity).
    apply list_elem_of_here.
  - rewrite H. cbn [fst]. vm_compute. reflexivity.
Defined.

(** *** Search hits *)

Section HitsProperties.

Context {Hit : Type} (file : Hit -> string).

Lemma keepUnseen_files seen hits f :
  f ∈ map file (keepUnseen file seen hits) ↔ f ∈ map file hits ∧ f ∉ seen.
Proof.
  revert seen. induction hits as [|h hits IH]; intros seen; cbn.
  - split; [intros H; inversion H|intros [H _]; inversion H].
  - destruct (decide (file h ∈ seen)) as [Hin|Hout]; cbn;
      rewrite ?elem_of_cons, IH; [|rewrite elem_of_union, elem_of_singleton].
    + split; [tauto|]. intros [[->|H] Hf]; [contradiction|auto].
    + split.
      * intros [->|[H Hf]]; [auto|]. split; [auto|]. intros ?. apply Hf. auto.
      * intros [[->|H] Hf]; [auto|].
        destruct (decide (f = file h)) as [->|Hne]; [auto|]. right. split; [exact H|].
        intros [?|?]; contradiction.
Qed.

Lemma keepUnseen_NoDup seen hits : NoDup (map file (keepUnseen file seen hits)).
Proof.
  revert seen. induction hits as [|h hits IH]; intros seen; cbn; [constructor|].
  destruct (decide (file h ∈ seen)); [apply IH|]. cbn. constructor; [|apply IH].
  rewrite keepUnseen_files. intros [_ H]. apply H, elem_of_union_l, elem_of_singleton.
  reflexivity.
Qed.

Lemma keepUnseen_sublist seen hits : sublist (keepUnseen file seen hits) hits.
Proof.
  revert seen. induction hits as [|h hits IH]; intros seen; cbn; [constructor|].
  destruct (decide (file h ∈ seen)); [apply sublist_cons|apply sublist_skip]; apply IH.
Qed.

Lemma keepUnseen_fixed seen hits :
  NoDup (map file hits) -> (∀ h, h ∈ hits -> file h ∉ seen) ->
  keepUnseen file seen hits = hits.
Proof.
  revert seen. induction hits as [|h hits IH]; intros seen Hnd Hout; cbn; [reflexivity|].
  cbn in Hnd. apply NoDup_cons in Hnd as [Hh Hnd].
  destruct (decide (file h ∈ seen)) as [Hin|_].
  - exfalso. apply (Hout h); [apply list_elem_of_here|exact Hin].
  - f_equal. apply IH; [exact Hnd|]. intros h' Hh' Hin.
    apply elem_of_union in Hin as [Hin|Hin].
    + apply elem_of_singleton in Hin. apply Hh. rewrite <- Hin.
      apply list_elem_of_fmap_2. exact Hh'.
    + apply (Hout h'); [apply list_elem_of_further, Hh'|exact Hin].
Qed.

End HitsProperties.

(** X28.  [deduplicateHitsByFile] keeps one hit for every file that occurs
    and no file twice; what it keeps is a subsequence of its input, the
    first hit being always kept; and it changes nothing on hits that are
    already distinct, so that a second pass is the identity. *)
Theorem X28_one_hit_per_file {Hit : Type} (file : Hit -> string) (hits : list Hit) :
  (∀ f, f ∈ map file (deduplicateHitsByFile file hits) ↔ f ∈ map file hits)
  ∧ NoDup (map file (deduplicateHitsByFile file hits))
  ∧ sublist (deduplicateHitsByFile file hits) hits
  ∧ head (deduplicateHitsByFile file hits) = head hits
  ∧ (NoDup (map file hits) -> deduplicateHitsByFile file hits = hits)
  ∧ deduplicateHitsByFile file (deduplicateHitsByFile file hits)
    = deduplicateHitsByFile file hits.
Proof.
  unfold deduplicateHitsByFile.
  assert (Hfix : ∀ l, NoDup (map file l) -> keepUnseen file ∅ l = l).
  { intros l Hl. apply keepUnseen_fixed; [exact Hl|]. intros h _. apply not_elem_of_empty. }
  split; [|split; [|split; [|split; [|split]]]].
  - intros f. rewrite keepUnseen_files. split; [tauto|]. intros H. split; [exact H|].
    apply not_elem_of_empty.
  - apply keepUnseen_NoDup.
  - apply keepUnseen_sublist.
  - destruct hits as [|h hits]; [reflexivity|]. cbn.
    destruct (decide (file h ∈ ∅)) as [Hin|_]; [|reflexivity].
    exfalso. revert Hin. apply not_elem_of_empty.
  - exact (Hfix hits).
  - apply Hfix, keepUnseen_NoDup.
Qed.

(** *** Which states execute *)

(** X29.  [SUCCESS_TRIGGERS] is defined exactly on [OPERATIONAL_STATES],
    with a different forward trigger for each, none of them [START].  In
    every other state [executeState] returns at once: no handler runs and
    nothing changes. *)
Theorem X29_only_operational_states_execute :
  (∀ s, is_Some (SUCCESS_TRIGGERS s) ↔ s ∈ OPERATIONAL_STATES)
  ∧ (∀ s s' t, SUCCESS_TRIGGERS s = Some t -> SUCCESS_TRIGGERS s' = Some t -> s = s')
  ∧ (∀ s t, SUCCESS_TRIGGERS s = Some t -> isForward t = true ∧ t ≠ START)
  ∧ (∀ table guards coordinator ts s w,
       s ∉ OPERATIONAL_STATES ->
       executeState table guards coordinator ts s w = (inr tt, w)).
Proof.
  assert (H : ∀ s, is_Some (SUCCESS_TRIGGERS s) ↔ s ∈ OPERATIONAL_STATES).
  { intros s. unfold OPERATIONAL_STATES. split.
    - intros [t Ht]. destruct s; try discriminate Ht;
        repeat (first [apply list_elem_of_here | apply list_elem_of_further]).
    - intros Hin.
      repeat (apply elem_of_cons in Hin as [->|Hin]; [eexists; reflexivity|]).
      inversion Hin. }
  split; [exact H|]. split; [|split].
  - intros s s' t Hs Hs'.
    destruct s; try discriminate Hs; injection Hs as <-;
      destruct s'; try discriminate Hs'; reflexivity.
  - intros s t Hs. destruct s; try discriminate Hs; injection Hs as <-;
      split; (reflexivity || discriminate).
  - intros table guards coordinator ts s w Hout. unfold executeState.
    destruct (SUCCESS_TRIGGERS s) as [t|] eqn:Ht; [|reflexivity].
    exfalso. apply Hout, H. eauto.
Qed.

(** *** A run in which nothing fails *)

(** One iteration: the handler resolves, the success transition commits. *)
Lemma loopBody_advances table guards coordinator ts w s n
    (Ht : followsPipeline table)
    (Hg : ∀ to ctx, guardAccepts guards to ctx = true)
    (Hh : allResolve coordinator)
    (Hw : canSave w)
    (Hp : pauseRequested (orch w) = false)
    (Hc : cancelRequested (orch w) = false)
    (Hs : state (machine (sys w)) = s)
    (Hn : stepsToDone s = Some (S n)) :
  ∃ w1, loopBody table guards coordinator ts s w = (inr true, w1)
        ∧ canSave w1
        ∧ pauseRequested (orch w1) = false
        ∧ cancelRequested (orch w1) = false
        ∧ lastError (orch w1) = lastError (orch w)
        ∧ attempt (machine (sys w1)) = attempt (machine (sys w))
        ∧ stepsToDone (state (machine (sys w1))) = Some n.
Proof.
  assert (Hop : s ∈ OPERATIONAL_STATES).
  { unfold OPERATIONAL_STATES. destruct s; try discriminate Hn;
      repeat (first [apply list_elem_of_here | apply list_elem_of_further]). }
  destruct (Hh s Hop) as (h & Hcoord & Hrun).
  destruct (Hrun (data (orch w))) as (Hreq & partial & Hout).
  assert (Hne : State_beq s ERROR = false) by (destruct s; try discriminate Hn; reflexivity).
  destruct (proj2 Ht s n Hn) as (trigger & to & Htr & Hto & Hsteps).
  destruct w as [o sy]. cbn [orch sys] in *.
  set (d1 := spread (data o) partial).
  set (payload := Some (mkPayload (Some (workflowDataToContext d1)) None)).
  destruct (success_trigger_resolves table s trigger (machine sy) Htr Hs) as [Hres _].
  rewrite Hto in Hres.
  destruct (commits_when_writable table guards trigger payload ts sy _ to Hw Hres
              (Hg _ _)) as (s1 & Hcommit & Hm1).
  pose proof (transition_writable table guards trigger payload ts sy Hw) as [Hw1 _].
  rewrite Hcommit in Hw1. cbn in Hw1.
  exists (mkWorld (setData d1 o) s1).
  split; [|cbn [orch sys]; rewrite Hm1; cbn; auto 10].
  unfold loopBody. rewrite Hne. unfold self, executeState. rewrite Htr.
  unfold tryCatch, execute, self, onOrch, onSys. eff_unfold. cbn [orch sys].
  rewrite Hp, Hc, Hcoord. cbn zeta. cbn [orch sys]. rewrite Hreq. cbn [serve].
  eff_unfold. rewrite Hout.
  cbn [orch sys setData data]. fold d1. fold payload. rewrite Hcommit. reflexivity.
Qed.

Lemma executeLoop_completes table guards coordinator ts
    (Ht : followsPipeline table)
    (Hg : ∀ to ctx, guardAccepts guards to ctx = true)
    (Hh : allResolve coordinator) :
  ∀ n fuel w,
    canSave w ->
    pauseRequested (orch w) = false ->
    cancelRequested (orch w) = false ->
    stepsToDone (state (machine (sys w))) = Some n ->
    (n <= fuel)%nat ->
    ∃ w', executeLoop table guards coordinator ts fuel w
          = (inr (Some (mkResult completed DONE (data (orch w'))
                                 (attempt (machine (sys w))) None)), w')
          ∧ state (machine (sys w')) = DONE
          ∧ lastError (orch w') = lastError (orch w).
Proof.
  induction n as [|n IH]; intros fuel w Hw Hp Hc Hn Hfuel.
  - assert (Hdone : state (machine (sys w)) = DONE)
      by (destruct (state (machine (sys w))); try discriminate Hn; reflexivity).
    exists w. rewrite executeLoop_unfold, Hdone. cbn. auto.
  - destruct fuel as [|fuel]; [lia|].
    destruct (loopBody_advances table guards coordinator ts w _ n Ht Hg Hh Hw Hp Hc
                eq_refl Hn)
      as (w1 & Hbody & Hw1 & Hp1 & Hc1 & He1 & Ha1 & Hn1).
    destruct (IH fuel w1 Hw1 Hp1 Hc1 Hn1 ltac:(lia)) as (w' & Hloop & Hdone & He).
    exists w'. rewrite executeLoop_unfold.
    assert (Hgo : shouldContinue (state (machine (sys w))) = true)
      by (destruct (state (machine (sys w))); try discriminate Hn; reflexivity).
    rewrite Hgo, Hbody, Hloop, Ha1. split; [reflexivity|]. split; [exact Hdone|congruence].
Qed.

(** X30.  A run in which nothing fails completes.  On a store that can be
    written and holds no record, with guards that accept and a map that
    has the forward path, when every operational state has a handler that
    resolves and asks for nothing, [run] on an idle machine issues [START], runs the nine
    handlers and returns [completed] in [DONE] within ten iterations of
    the loop, without an error and without spending an attempt. *)
Theorem X30_run_completes table guards coordinator ts input fuel w
    (Ht : followsPipeline table)
    (Hg : ∀ to ctx, guardAccepts guards to ctx = true)
    (Hh : allResolve coordinator)
    (Hw : canSave w)
    (Hidle : state (machine (sys w)) = IDLE)
    (Hnew : loaded (store (machine (sys w))) (disk (sys w)) = None)
    (Hfuel : (10 <= fuel)%nat) :
  ∃ w', run table guards coordinator ts input fuel w
        = (inr (Some (mkResult completed DONE (data (orch w'))
                               (attempt (machine (sys w))) None)), w')
        ∧ state (machine (sys w')) = DONE
        ∧ lastError (orch w') = None.
Proof.
  destruct w as [o [m d ev]]. cbn [sys orch machine disk] in *.
  set (o1 := mkOrchestrator (recovery o) {[ "input" := input ]} false false None).
  set (payload := Some (mkPayload (Some (workflowDataToContext (data o1))) None)).
  assert (Hres : resolve table m START = (m, Some ANALYZING)).
  { unfold resolve. rewrite Hidle. rewrite (proj1 Ht). reflexivity. }
  destruct (commits_when_writable table guards START payload ts (mkSys m d ev)
              m ANALYZING Hw Hres (Hg _ _)) as (s1 & Hstart & Hm1).
  pose proof (transition_writable table guards START payload ts (mkSys m d ev) Hw)
    as [Hw1 _].
  rewrite Hstart in Hw1. cbn in Hw1.
  destruct (executeLoop_completes table guards coordinator ts Ht Hg Hh 9 fuel
              (mkWorld o1 s1))
    as (w' & Hloop & Hdone & He); try reflexivity; [exact Hw1| |lia|].
  { cbn. rewrite Hm1. reflexivity. }
  exists w'. split; [|split; [exact Hdone|exact He]].
  unfold run, onOrch, onSys, self, initialize, storeLoad, this.
  eff_unfold. cbn [sys orch machine disk]. rewrite Hnew. cbn [sys orch machine].
  rewrite Hidle. cbn [State_beq]. fold o1. cbn [orch sys]. fold payload.
  rewrite Hstart. rewrite Hloop. cbn [sys machine]. rewrite Hm1. reflexivity.
Qed.

Lemma allResolve_idleAgents : allResolve idleAgents.
Proof.
  intros s Hs. unfold idleAgents, OPERATIONAL_STATES in *.
  repeat (apply elem_of_cons in Hs as [->|Hs];
          [eexists; split; [reflexivity|]; intros d; split; [reflexivity|]; eexists;
           reflexivity|]).
  inversion Hs.
Qed.

Lemma transitions_follow : followsPipeline transitions.
Proof.
  split; [reflexivity|]. intros s n Hn.
  destruct s; try discriminate Hn; injection Hn as <-; eexists; eexists; repeat split.
Qed.

Lemma X30_witness :
  ∃ w', run transitions noGuards idleAgents "t01" (JString "acme/widget#7") 10 freshWorld
        = (inr (Some (mkResult completed DONE (data (orch w'))
                               (attempt (machine (sys freshWorld))) None)), w')
        ∧ state (machine (sys w')) = DONE
        ∧ lastError (orch w') = None.
Proof.
  apply (X30_run_completes transitions noGuards idleAgents "t01" (JString "acme/widget#7")
           10 freshWorld).
  - exact transitions_follow.
  - intros to ctx. reflexivity.
  - exact allResolve_idleAgents.
  - exact writable_fresh.
  - reflexivity.
  - reflexivity.
  - lia.
Defined.
